(** * A line editor for raw-mode terminal input: [src/io.js]

    Shallow embedding of the [IO] class and verification of its key
    dispatcher, cursor/buffer model, history navigation, autocomplete
    cycling and multi-line paste handling.

    JavaScript strings are modelled as [string], numbers used as offsets and
    indices as [Z], the [IO] object together with the dispatcher's closure
    variable and the outside world as one record [Machine], and every method
    as a function on [Machine] (explicit state passing, in statement order). *)

From Stdlib Require Import ZArith List Bool Ascii String Lia.
Import ListNotations.

Local Open Scope string_scope.
Local Open Scope Z_scope.

(** ** JavaScript string primitives *)

Module JS.

Definition LF : ascii := "010"%char.
Definition CR : ascii := "013"%char.

(** [s.length] *)
Definition len (s : string) : Z := Z.of_nat (String.length s).

(** Truthiness of a string: every string but [''] is truthy. *)
Definition truthy (s : string) : bool :=
  match s with
  | EmptyString => false
  | String _ _ => true
  end.

Fixpoint take (n : nat) (s : string) : string :=
  match n, s with
  | S n', String c s' => String c (take n' s')
  | _, _ => EmptyString
  end.

Fixpoint drop (n : nat) (s : string) : string :=
  match n, s with
  | S n', String _ s' => drop n' s'
  | _, _ => s
  end.

(** Relative index of [String.prototype.slice]: negative counts from the
    end, the result is clamped to [0, length]. *)
Definition clampIndex (l i : Z) : Z :=
  if i <? 0 then Z.max (l + i) 0 else Z.min i l.

(** [s.slice(a, b)] *)
Definition slice (s : string) (a b : Z) : string :=
  let from := clampIndex (len s) a in
  let to := clampIndex (len s) b in
  take (Z.to_nat (to - from)) (drop (Z.to_nat from) s).

(** [s.split(/\r\n|\n|\r/)]: the alternation tries [\r\n] first, so a
    carriage return followed by a line feed is one separator. *)
Fixpoint splitLines (s : string) : list string :=
  match s with
  | EmptyString => [EmptyString]
  | String c rest =>
      if Ascii.eqb c CR then
        match rest with
        | String c' rest' =>
            if Ascii.eqb c' LF then EmptyString :: splitLines rest'
            else EmptyString :: splitLines rest
        | EmptyString => EmptyString :: splitLines rest
        end
      else if Ascii.eqb c LF then EmptyString :: splitLines rest
      else
        match splitLines rest with
        | seg :: segs => String c seg :: segs
        | [] => [String c EmptyString]
        end
  end.

(** [a[i]] on an array: [undefined] (here [None]) outside [0, length). *)
Definition index {A : Type} (a : list A) (i : Z) : option A :=
  if i <? 0 then None else nth_error a (Z.to_nat i).

End JS.

(** ** The machine state *)

(** References to JavaScript arrays: the completion list is an array object
    that the editor mutates in place with [shift], and that the lookup which
    returned it may hand out again. *)
Definition Loc := nat.

(** What reaches the terminal and the collaborators, in order.  The
    escape sequences of [CSI] and [cursorTo] ([tty.js]) and the styling of
    [chalk] are not part of the sources: what is written through them is
    recorded by name. *)
Inductive Effect : Type :=
| Write (s : string)            (* stdout.write(s) *)
| WriteGrey (s : string)        (* stdout.write(chalk.grey(s)) *)
| ClearScreenDown               (* stdout.write(CSI.kClearScreenDown) *)
| CursorTo (x : Z)              (* cursorTo(stdout, x) *)
| Cork                          (* stdin.cork() *)
| Uncork                        (* stdin.uncork() *)
| CallOnLine (line : string)            (* onLine(line) *)
| CallOnAutocomplete (buf : string)     (* onAutocomplete(buf) *)
| CallTransformBuffer (buf : string).   (* transformBuffer(buf) *)

Section Editor.

(** State private to the caller-supplied callbacks. *)
Context {X : Type}.

(** The part of the heap the callbacks can reach: the arrays they have
    created, and their own state. *)
Record Store : Type := mkStore {
  arrays : Loc -> list string;
  ext : X
}.

Definition Callback (R : Type) : Type := string -> Store -> R * Store.

(** The [IO] object ([this]), the handler's closure variable
    [closeOnThisOne], the callbacks' store and the trace of effects. *)
Record Machine : Type := mkMachine {
  buffer : string;
  cursor : Z;
  prefix : string;
  suffix : string;
  paused : bool;
  transformBuffer : option (Callback string);
  completionList : option Loc;
  onAutocomplete : option (Callback (option Loc));
  history : list string;
  history_index : Z;
  closeOnThisOne : bool;
  store : Store;
  log : list Effect
}.

Definition set_buffer (v : string) (m : Machine) : Machine :=
  mkMachine v (cursor m) (prefix m) (suffix m) (paused m)
    (transformBuffer m) (completionList m) (onAutocomplete m) (history m)
    (history_index m) (closeOnThisOne m) (store m) (log m).

Definition set_cursor (v : Z) (m : Machine) : Machine :=
  mkMachine (buffer m) v (prefix m) (suffix m) (paused m)
    (transformBuffer m) (completionList m) (onAutocomplete m) (history m)
    (history_index m) (closeOnThisOne m) (store m) (log m).

Definition set_prefix (v : string) (m : Machine) : Machine :=
  mkMachine (buffer m) (cursor m) v (suffix m) (paused m)
    (transformBuffer m) (completionList m) (onAutocomplete m) (history m)
    (history_index m) (closeOnThisOne m) (store m) (log m).

Definition set_suffix (v : string) (m : Machine) : Machine :=
  mkMachine (buffer m) (cursor m) (prefix m) v (paused m)
    (transformBuffer m) (completionList m) (onAutocomplete m) (history m)
    (history_index m) (closeOnThisOne m) (store m) (log m).

Definition set_paused (v : bool) (m : Machine) : Machine :=
  mkMachine (buffer m) (cursor m) (prefix m) (suffix m) v
    (transformBuffer m) (completionList m) (onAutocomplete m) (history m)
    (history_index m) (closeOnThisOne m) (store m) (log m).

Definition set_completionList (v : option Loc) (m : Machine) : Machine :=
  mkMachine (buffer m) (cursor m) (prefix m) (suffix m) (paused m)
    (transformBuffer m) v (onAutocomplete m) (history m)
    (history_index m) (closeOnThisOne m) (store m) (log m).

Definition set_history (v : list string) (m : Machine) : Machine :=
  mkMachine (buffer m) (cursor m) (prefix m) (suffix m) (paused m)
    (transformBuffer m) (completionList m) (onAutocomplete m) v
    (history_index m) (closeOnThisOne m) (store m) (log m).

Definition set_history_index (v : Z) (m : Machine) : Machine :=
  mkMachine (buffer m) (cursor m) (prefix m) (suffix m) (paused m)
    (transformBuffer m) (completionList m) (onAutocomplete m) (history m)
    v (closeOnThisOne m) (store m) (log m).

Definition set_closeOnThisOne (v : bool) (m : Machine) : Machine :=
  mkMachine (buffer m) (cursor m) (prefix m) (suffix m) (paused m)
    (transformBuffer m) (completionList m) (onAutocomplete m) (history m)
    (history_index m) v (store m) (log m).

Definition set_store (v : Store) (m : Machine) : Machine :=
  mkMachine (buffer m) (cursor m) (prefix m) (suffix m) (paused m)
    (transformBuffer m) (completionList m) (onAutocomplete m) (history m)
    (history_index m) (closeOnThisOne m) v (log m).

(** Appends one effect to the trace. *)
Definition emit (e : Effect) (m : Machine) : Machine :=
  mkMachine (buffer m) (cursor m) (prefix m) (suffix m) (paused m)
    (transformBuffer m) (completionList m) (onAutocomplete m) (history m)
    (history_index m) (closeOnThisOne m) (store m) (log m ++ [e]).

(** Calls a callback: the call is traced and the callback's store
    threaded. *)
Definition call {R : Type} (e : Effect) (f : Callback R) (arg : string)
    (m : Machine) : R * Machine :=
  let '(r, st) := f arg (store m) in
  (r, set_store st (emit e m)).

(** [a.shift()] on the array at [l]: the array keeps its tail. *)
Definition shiftArray (l : Loc) (rest : list string) (st : Store) : Store :=
  mkStore (fun l' => if Nat.eqb l' l then rest else arrays st l') (ext st).

(** ** Methods of [IO] *)

Definition pause (m : Machine) : Machine :=
  let m := set_paused true m in
  emit Cork m.

Definition unpause (m : Machine) : Machine :=
  let m := emit Uncork m in
  set_paused false m.

Definition addSuffix (s : string) (m : Machine) : Machine :=
  if paused m || negb (cursor m =? JS.len (buffer m)) then m
  else
    let m := set_suffix s m in
    let m := emit ClearScreenDown m in
    let m := emit (WriteGrey (suffix m)) m in
    emit (CursorTo (cursor m + JS.len (prefix m))) m.

Definition clear (m : Machine) : Machine :=
  let m := emit (CursorTo 0) m in
  emit ClearScreenDown m.

(** [refresh] and [autocomplete] call each other.  Both are written here
    with the callee as a parameter, in the statement order of the source;
    the knot is tied below. *)
Definition refresh_ (autocomplete : Machine -> Machine) (complete : bool)
    (m : Machine) : Machine :=
  if paused m then m
  else
    let m := set_completionList None m in
    let m := set_suffix "" m in
    let m := clear m in
    let '(b, m) :=
      match transformBuffer m with
      | Some f => call (CallTransformBuffer (buffer m)) f (buffer m) m
      | None => (buffer m, m)
      end in
    let m := emit (Write (prefix m ++ b)) m in
    let m := emit (CursorTo (cursor m + JS.len (prefix m))) m in
    if complete && JS.truthy (buffer m) then autocomplete m else m.

Definition autocomplete_ (self : Machine -> Machine) (m : Machine)
    : Machine :=
  match onAutocomplete m with
  | None => m
  | Some f =>
      match completionList m with
      | Some l =>
          match arrays (store m) l with
          | next :: rest =>
              let m := set_store (shiftArray l rest (store m)) m in
              addSuffix next m
          | [] =>
              let m := set_completionList None m in
              refresh_ self false m
          end
      | None =>
          let '(c, m) := call (CallOnAutocomplete (buffer m)) f (buffer m) m in
          match c with
          | Some l =>
              let m := set_completionList (Some l) m in
              self m
          | None => m
          end
      end
  end.

(** The recursion is at most two calls deep: [autocomplete] calls itself
    only after it has stored a completion list, and with a list stored it
    ends in [addSuffix] or in [refresh(false)], which calls nothing.  The
    innermost callee is therefore never reached ([autocomplete_unfold]
    below shows that this definition satisfies the recursive equation of
    the source). *)
Definition autocomplete : Machine -> Machine :=
  autocomplete_ (autocomplete_ (fun m => m)).

Definition refresh : bool -> Machine -> Machine := refresh_ autocomplete.

Definition setPrefix (s : string) (m : Machine) : Machine :=
  let m := if JS.truthy s then m else set_prefix "" m in
  let m := set_prefix s m in
  refresh true m.

Definition appendToBuffer (s : string) (m : Machine) : Machine :=
  let m :=
    if cursor m <? JS.len (buffer m) then
      let beg := JS.slice (buffer m) 0 (cursor m) in
      let end_ := JS.slice (buffer m) (cursor m) (JS.len (buffer m)) in
      set_buffer (beg ++ s ++ end_) m
    else set_buffer (buffer m ++ s) m in
  let m := set_cursor (cursor m + JS.len s) m in
  refresh true m.

Definition moveCursor (n : Z) (m : Machine) : Machine :=
  if (cursor m + n <? 0) || (cursor m + n >? JS.len (buffer m)) then m
  else
    let m := set_cursor (cursor m + n) m in
    refresh true m.

(** ** The key handler *)

Record Key : Type := mkKey {
  name : option string;
  ctrl : bool;
  meta : bool
}.

(** [key.name === n] *)
Definition nameIs (key : Key) (n : string) : bool :=
  match name key with
  | Some x => String.eqb x n
  | None => false
  end.

(** How a call of the handler ends: [return undefined], [return -1], or a
    [TypeError] thrown on reading [.length] of [undefined]. *)
Inductive Result : Type :=
| Undefined (m : Machine)
| MinusOne (m : Machine)
| TypeError.

Definition newline : string := String JS.LF EmptyString.

Definition exitWarning : string :=
  newline ++ "(To exit, press ^C again or call exit)" ++ newline.

(** The submission handler, a parameter of the constructor that the key
    handler closes over. *)
Variable onLine : Callback string.

(** The body of [if (i > 0)] in the loop over the segments. *)
Definition endLine (m : Machine) : Machine :=
  let m :=
    if JS.truthy (buffer m) then
      let m := refresh false m in
      let m := pause m in
      let m := emit (Write newline) m in
      let b := buffer m in
      let m := set_buffer "" m in
      let m := set_cursor 0 m in
      let m := set_history (b :: history m) m in
      let '(r, m) := call (CallOnLine b) onLine b m in
      let m := emit (Write (r ++ newline)) m in
      unpause m
    else emit (Write newline) m in
  refresh true m.

(** [for (let i = ...; i < lines.length; i += 1)], on the segments from
    index [i] on. *)
Fixpoint insertLines (i : nat) (lines : list string) (m : Machine)
    : Machine :=
  match lines with
  | [] => m
  | line :: rest =>
      let m := if (0 <? i)%nat then endLine m else m in
      let m := appendToBuffer line m in
      insertLines (S i) rest m
  end.

(** The [switch (key.name)] statement. *)
Definition dispatch (s : string) (key : Key) (m : Machine) : Result :=
  if nameIs key "up" then
    if history_index m >=? Z.of_nat (List.length (history m)) - 1 then
      Undefined m
    else
      let m := set_history_index (history_index m + 1) m in
      match JS.index (history m) (history_index m) with
      | None => TypeError
      | Some b =>
          let m := set_buffer b m in
          let m := set_cursor (JS.len (buffer m)) m in
          Undefined (refresh true m)
      end
  else if nameIs key "down" then
    if history_index m <=? 0 then
      let m := set_buffer "" m in
      let m := set_cursor 0 m in
      Undefined (refresh true m)
    else
      let m := set_history_index (history_index m - 1) m in
      match JS.index (history m) (history_index m) with
      | None => TypeError
      | Some b =>
          let m := set_buffer b m in
          let m := set_cursor (JS.len (buffer m)) m in
          Undefined (refresh true m)
      end
  else if nameIs key "left" then
    Undefined (moveCursor (-1) m)
  else if nameIs key "right" then
    if cursor m =? JS.len (buffer m) then
      if JS.truthy (suffix m) then
        let m := set_completionList None m in
        let m := set_buffer (buffer m ++ suffix m) m in
        let m := set_cursor (cursor m + JS.len (suffix m)) m in
        Undefined (refresh true m)
      else Undefined m
    else Undefined (moveCursor 1 m)
  else if nameIs key "delete" || nameIs key "backspace" then
    if cursor m =? 0 then Undefined m
    else
      let m :=
        set_buffer (JS.slice (buffer m) 0 (cursor m - 1)
                    ++ JS.slice (buffer m) (cursor m) (JS.len (buffer m)))
          m in
      Undefined (moveCursor (-1) m)
  else if nameIs key "tab" then
    Undefined (autocomplete m)
  else
    if JS.truthy s then
      let m := set_history_index (-1) m in
      let lines := JS.splitLines s in
      Undefined (insertLines 0 lines m)
    else Undefined m.

(** ctrl/meta with "d" or "z" *)
Definition isExit (key : Key) : bool :=
  (ctrl key || meta key) && (nameIs key "d" || nameIs key "z").

(** ctrl/meta with "c" *)
Definition isInterrupt (key : Key) : bool :=
  (ctrl key || meta key) && nameIs key "c".

(** The handler given to [emitKeys]: the exit keys and the guard
    [closeOnThisOne], then the switch. *)
Definition onKey (s : string) (key : Key) (m : Machine) : Result :=
  if isExit key then MinusOne m
  else if isInterrupt key then
    if closeOnThisOne m then MinusOne m
    else
      let m := emit (Write exitWarning) m in
      let m := set_buffer "" m in
      let m := set_cursor 0 m in
      let m := set_closeOnThisOne true m in
      Undefined m
  else
    let m := set_closeOnThisOne false m in
    dispatch s key m.

(** The state the constructor leaves: empty line, no history, guard unset,
    input uncorked by the first [unpause()]. *)
Definition construct (onAutocomplete' : option (Callback (option Loc)))
    (transformBuffer' : option (Callback string)) (st : Store) : Machine :=
  unpause
    (mkMachine "" 0 "" "" false transformBuffer' None onAutocomplete' []
       (-1) false st []).

(** Modelled from the spec: the key decoder [emitKeys] of [tty.js] is not
    among the sources.  By sections 2 and 5 of the spec it turns the raw
    input into key events, at most one per input unit, and the handler is
    run on them one at a time, in arrival order.  [run] is the loop of
    [handle] over the decoded events: it goes on while the handler returns
    [undefined] and ends the process when it returns [-1] (the [true] in
    the result).  [None] stands for the uncaught [TypeError]. *)
Fixpoint run (events : list (string * Key)) (m : Machine)
    : option (Machine * bool) :=
  match events with
  | [] => Some (m, false)
  | (s, key) :: rest =>
      match onKey s key m with
      | Undefined m' => run rest m'
      | MinusOne m' => Some (m', true)
      | TypeError => None
      end
  end.

(** States the editor can be in between two key events. *)
Inductive reachable : Machine -> Prop :=
| reach_construct : forall oa tb st, reachable (construct oa tb st)
| reach_onKey : forall m s key m',
    reachable m -> onKey s key m = Undefined m' -> reachable m'
| reach_setPrefix : forall m p,
    reachable m -> reachable (setPrefix p m).

End Editor.

Arguments Store X : clear implicits.
Arguments Callback X R : clear implicits.
Arguments Machine X : clear implicits.
Arguments Result X : clear implicits.

(** ** Observations on a trace *)

(** The lines handed to the submission handler, in call order. *)
Fixpoint submissions (l : list Effect) : list string :=
  match l with
  | [] => []
  | CallOnLine line :: l' => line :: submissions l'
  | _ :: l' => submissions l'
  end.

(** The buffers handed to the completion lookup, in call order. *)
Fixpoint lookups (l : list Effect) : list string :=
  match l with
  | [] => []
  | CallOnAutocomplete buf :: l' => buf :: lookups l'
  | _ :: l' => lookups l'
  end.

(** The buffer [appendToBuffer(s)] computes from buffer [b] and cursor
    [c]. *)
Definition insertAt (b : string) (c : Z) (s : string) : string :=
  if c <? JS.len b then JS.slice b 0 c ++ s ++ JS.slice b c (JS.len b)
  else b ++ s.

(** The key names with a case of their own in the switch. *)
Definition isEditKey (key : Key) : bool :=
  nameIs key "up" || nameIs key "down" || nameIs key "left"
  || nameIs key "right" || nameIs key "delete" || nameIs key "backspace"
  || nameIs key "tab".

(** ** Relations between states *)

Section Relations.

Context {X : Type}.

(** [Display m m']: [m'] differs from [m] at most in the suggestion, the
    completion list, the callbacks' store, and by effects appended to the
    trace.  This is all that rendering and autocompletion do. *)
Record Display (m m' : Machine X) : Prop := mkDisplay {
  display_buffer : buffer m' = buffer m;
  display_cursor : cursor m' = cursor m;
  display_prefix : prefix m' = prefix m;
  display_paused : paused m' = paused m;
  display_transformBuffer : transformBuffer m' = transformBuffer m;
  display_onAutocomplete : onAutocomplete m' = onAutocomplete m;
  display_history : history m' = history m;
  display_history_index : history_index m' = history_index m;
  display_closeOnThisOne : closeOnThisOne m' = closeOnThisOne m;
  display_log : exists l, log m' = (log m ++ l)%list
}.

(** [Progress m m']: the prompt, the callbacks and the guard are those of
    [m], and the trace of [m'] extends that of [m].  Everything below the
    guard logic of the handler stays within this relation. *)
Record Progress (m m' : Machine X) : Prop := mkProgress {
  progress_prefix : prefix m' = prefix m;
  progress_transformBuffer : transformBuffer m' = transformBuffer m;
  progress_onAutocomplete : onAutocomplete m' = onAutocomplete m;
  progress_closeOnThisOne : closeOnThisOne m' = closeOnThisOne m;
  progress_log : exists l, log m' = (log m ++ l)%list
}.

(** Effects other than a call of the submission handler. *)
Definition silent (e : Effect) : bool :=
  match e with
  | CallOnLine _ => false
  | _ => true
  end.

(** [Quiet m m']: no submission between [m] and [m']. *)
Definition Quiet (m m' : Machine X) : Prop :=
  submissions (log m') = submissions (log m).

(** The cursor is an offset into the buffer, and the history index is
    [-1] or the index of an entry. *)
Definition Inv (m : Machine X) : Prop :=
  0 <= cursor m <= JS.len (buffer m) /\
  -1 <= history_index m < Z.of_nat (List.length (history m)).

(** The state a first ctrl/meta-"c" leaves: the warning written, buffer
    and cursor cleared, the guard armed. *)
Definition interrupted (m : Machine X) : Machine X :=
  set_closeOnThisOne true
    (set_cursor 0 (set_buffer "" (emit (Write exitWarning) m))).


End Relations.

(** ** Concrete keys, callbacks and states *)

Module Examples.

(** The callbacks' private state is a counter of the arrays created. *)
Definition store0 : Store nat := mkStore (fun _ => []) 0%nat.

(** A submission handler that answers with the line itself. *)
Definition echo : Callback nat string := fun line st => (line, st).

(** A lookup that answers every query with a new array. *)
Definition lookupFresh (candidates : list string)
    : Callback nat (option Loc) :=
  fun _ st =>
    (Some (ext st),
     mkStore (fun l => if Nat.eqb l (ext st) then candidates else arrays st l)
       (S (ext st))).

(** A lookup that answers every query with the same array object, the one
    at location 0. *)
Definition lookupCached : Callback nat (option Loc) :=
  fun _ st => (Some 0%nat, st).

Definition storeCached : Store nat :=
  mkStore (fun l => if Nat.eqb l 0 then ["abc"; "abd"] else []) 1%nat.

(** A printable key: the decoder passes the character as sequence and as
    name. *)
Definition typed (c : string) : string * Key :=
  (c, mkKey (Some c) false false).

(** A named key; its escape sequence plays no part in the handler. *)
Definition named (n : string) : string * Key :=
  ("", mkKey (Some n) false false).

Definition enter : string * Key :=
  (String JS.CR "", mkKey (Some "return") false false).

Definition ctrlC : string * Key :=
  (String "003"%char "", mkKey (Some "c") true false).

Definition ctrlD : string * Key :=
  (String "004"%char "", mkKey (Some "d") true false).

(** A pasted block arrives as one sequence with no key name. *)
Definition pasteKey : Key := mkKey None false false.

Definition pasted (s : string) : string * Key := (s, pasteKey).

(** A fresh editor without completion, and one whose lookup proposes
    [candidates] for every buffer. *)
Definition plainEditor : Machine nat := construct None None store0.

Definition completingEditor (candidates : list string) : Machine nat :=
  construct (Some (lookupFresh candidates)) None store0.

(** An editor holding [b] with the cursor at [c], nothing else set. *)
Definition holding (b : string) (c : Z) : Machine nat :=
  mkMachine b c "" "" false None None None [] (-1) false store0 [].

(** The state [run] leaves, or the given state when the run throws. *)
Definition after (events : list (string * Key)) (m : Machine nat)
    : Machine nat :=
  match run echo events m with
  | Some (m', _) => m'
  | None => m
  end.

(** After a first ctrl-c. *)
Definition armed : Machine nat := after [ctrlC] plainEditor.

(** "a" typed into an editor whose lookup proposes "foo": the preview
    shows "foo" after the buffer. *)
Definition suggesting : Machine nat :=
  after [typed "a"] (completingEditor ["foo"]).

(** "ab" typed into an editor whose lookup proposes "abc" and "abd": the
    preview has taken "abc" off the list already. *)
Definition previewing : Machine nat :=
  after [typed "a"; typed "b"] (completingEditor ["abc"; "abd"]).


(** "ab" typed and the cursor moved left: a list is stored, and nothing
    can be shown. *)
Definition midLine : Machine nat := after [named "left"] previewing.

(** "ab" typed into an editor whose lookup hands out one array object,
    which holds "abc" and "abd" to begin with. *)
Definition previewingCached : Machine nat :=
  after [typed "a"; typed "b"]
    (construct (Some lookupCached) None storeCached).

(** "a" and "b" submitted, then up, up, down: the newest entry "b" is in
    the buffer. *)
Definition browsing : Machine nat :=
  after [typed "a"; enter; typed "b"; enter;
         named "up"; named "up"; named "down"] plainEditor.

(** "a" and "b" submitted, then up, up: the oldest entry "a" is in the
    buffer. *)
Definition browsingOldest : Machine nat :=
  after [typed "a"; enter; typed "b"; enter; named "up"; named "up"]
    plainEditor.

(** "a" and "b" submitted, then up: the newest entry "b" is in the
    buffer, reached from the live line. *)
Definition browsingNewest : Machine nat :=
  after [typed "a"; enter; typed "b"; enter; named "up"] plainEditor.

(** "a" typed into a fresh editor. *)
Definition typedA : Machine nat := after [typed "a"] plainEditor.

(** "held" typed, the cursor moved back to after "he". *)
Definition editing : Machine nat :=
  after [pasted "held"; named "left"; named "left"] plainEditor.

End Examples.

(** * Verification *)

(** ** Facts about the string primitives *)

Module JSFacts.
Import JS.

Lemma len_nonneg (s : string) : 0 <= len s.
Proof. unfold len. lia. Qed.

Lemma len_append (a b : string) : len (a ++ b) = len a + len b.
Proof.
  unfold len. rewrite <- Nat2Z.inj_add. f_equal.
  induction a as [|c a IH]; simpl; congruence.
Qed.

Lemma length_take (n : nat) (s : string) :
  String.length (take n s) = Nat.min n (String.length s).
Proof.
  revert s. induction n as [|n IH]; intros [|c s]; simpl; auto.
Qed.

Lemma length_drop (n : nat) (s : string) :
  String.length (drop n s) = (String.length s - n)%nat.
Proof.
  revert s. induction n as [|n IH]; intros [|c s]; simpl; auto.
Qed.

Lemma take_all (n : nat) (s : string) :
  (String.length s <= n)%nat -> take n s = s.
Proof.
  revert s. induction n as [|n IH]; intros [|c s]; simpl; intros H; auto.
  - lia.
  - rewrite IH; auto. lia.
Qed.

Lemma drop_all (n : nat) (s : string) :
  (String.length s <= n)%nat -> drop n s = "".
Proof.
  revert s. induction n as [|n IH]; intros [|c s]; simpl; intros H; auto.
  - lia.
  - apply IH. lia.
Qed.

Lemma append_empty_r (s : string) : s ++ "" = s.
Proof. induction s as [|c s IH]; simpl; congruence. Qed.

(** [s.slice(0, c)] is the first [c] characters. *)
Lemma slice_prefix (s : string) (c : Z) :
  0 <= c <= len s -> slice s 0 c = take (Z.to_nat c) s.
Proof.
  intros H. unfold slice, clampIndex.
  destruct (c <? 0) eqn:E; [apply Z.ltb_lt in E; lia|].
  change (0 <? 0) with false. cbv iota.
  rewrite (Z.min_l 0) by lia. rewrite (Z.min_l c) by lia.
  now rewrite Z.sub_0_r.
Qed.

(** [s.slice(c, s.length)] is what follows the first [c] characters. *)
Lemma slice_suffix (s : string) (c : Z) :
  0 <= c <= len s -> slice s c (len s) = drop (Z.to_nat c) s.
Proof.
  intros H. unfold slice, clampIndex.
  destruct (c <? 0) eqn:E; [apply Z.ltb_lt in E; lia|].
  destruct (len s <? 0) eqn:E'; [apply Z.ltb_lt in E'; lia|].
  rewrite Z.min_id, Z.min_l by lia.
  apply take_all. rewrite length_drop. unfold len in *. lia.
Qed.

Lemma len_slice_prefix (s : string) (c : Z) :
  0 <= c <= len s -> len (slice s 0 c) = c.
Proof.
  intros H. rewrite slice_prefix by assumption.
  unfold len in *. rewrite length_take. lia.
Qed.

Lemma len_slice_suffix (s : string) (c : Z) :
  0 <= c <= len s -> len (slice s c (len s)) = len s - c.
Proof.
  intros H. rewrite slice_suffix by assumption.
  unfold len in *. rewrite length_drop. lia.
Qed.

Lemma truthy_len (s : string) : truthy s = false -> s = "".
Proof. destruct s; simpl; congruence. Qed.

Lemma splitLines_nonempty (s : string) : splitLines s <> [].
Proof.
  induction s as [|c s IH]; simpl.
  - discriminate.
  - destruct (Ascii.eqb c CR).
    + destruct s as [|c' s']; [discriminate|].
      destruct (Ascii.eqb c' LF); discriminate.
    + destruct (Ascii.eqb c LF); [discriminate|].
      destruct (splitLines s); discriminate.
Qed.

End JSFacts.

(** ** Rendering leaves the line alone *)

Section Rendering.

Context {X : Type}.

Lemma Display_refl (m : Machine X) : Display m m.
Proof. constructor; try reflexivity. exists []. now rewrite app_nil_r. Qed.

Lemma Display_trans (m1 m2 m3 : Machine X) :
  Display m1 m2 -> Display m2 m3 -> Display m1 m3.
Proof.
  intros [] []. constructor; try congruence.
  destruct display_log0 as [l1 H1], display_log1 as [l2 H2].
  exists (l1 ++ l2)%list. now rewrite H2, H1, app_assoc.
Qed.

Lemma Display_emit (e : Effect) (m : Machine X) : Display m (emit e m).
Proof. constructor; try reflexivity. now exists [e]. Qed.

Lemma Display_set_suffix (s : string) (m : Machine X) :
  Display m (set_suffix s m).
Proof. constructor; try reflexivity. exists []. simpl. now rewrite app_nil_r. Qed.

Lemma Display_set_completionList (c : option Loc) (m : Machine X) :
  Display m (set_completionList c m).
Proof. constructor; try reflexivity. exists []. simpl. now rewrite app_nil_r. Qed.

Lemma Display_set_store (st : Store X) (m : Machine X) :
  Display m (set_store st m).
Proof. constructor; try reflexivity. exists []. simpl. now rewrite app_nil_r. Qed.

Lemma Display_call {R : Type} (e : Effect) (f : Callback X R) (arg : string)
    (m : Machine X) :
  Display m (snd (call e f arg m)).
Proof.
  unfold call. destruct (f arg (store m)) as [r st]. simpl.
  eapply Display_trans; [apply Display_emit | apply Display_set_store].
Qed.

Create HintDb display.

#[local] Hint Resolve Display_refl Display_emit Display_set_suffix
  Display_set_completionList Display_set_store : display.

Ltac display_step :=
  eapply Display_trans; [| solve [eauto with display]].

Lemma Display_addSuffix (s : string) (m : Machine X) :
  Display m (addSuffix s m).
Proof.
  unfold addSuffix.
  destruct (paused m || negb (cursor m =? JS.len (buffer m)));
    [apply Display_refl|].
  do 3 display_step. auto with display.
Qed.

Lemma Display_clear (m : Machine X) : Display m (clear m).
Proof. unfold clear. display_step. auto with display. Qed.

Lemma Display_refresh_ (ac : Machine X -> Machine X) (complete : bool)
    (m : Machine X) :
  (forall m0, Display m0 (ac m0)) -> Display m (refresh_ ac complete m).
Proof.
  intros Hac. unfold refresh_.
  destruct (paused m); [apply Display_refl|].
  set (m1 := clear (set_suffix "" (set_completionList None m))).
  assert (H1 : Display m m1).
  { unfold m1. eapply Display_trans; [|apply Display_clear].
    display_step. auto with display. }
  assert (H2 : Display m1 (snd (match transformBuffer m1 with
      | Some f => call (CallTransformBuffer (buffer m1)) f (buffer m1) m1
      | None => (buffer m1, m1) end))).
  { destruct (transformBuffer m1); [apply Display_call | apply Display_refl]. }
  destruct (match transformBuffer m1 with
      | Some f => call (CallTransformBuffer (buffer m1)) f (buffer m1) m1
      | None => (buffer m1, m1) end) as [b m2].
  simpl in H2.
  match goal with |- Display _ (if _ then ac ?m3 else _) =>
    assert (H3 : Display m m3) end.
  { do 2 display_step. eapply Display_trans; eassumption. }
  destruct (complete && _); [|exact H3].
  eapply Display_trans; [exact H3 | apply Hac].
Qed.

Lemma Display_autocomplete_ (self : Machine X -> Machine X) (m : Machine X) :
  (forall m0, Display m0 (self m0)) -> Display m (autocomplete_ self m).
Proof.
  intros Hself. unfold autocomplete_.
  destruct (onAutocomplete m) as [f|]; [|apply Display_refl].
  destruct (completionList m) as [l|].
  - destruct (arrays (store m) l) as [|next rest].
    + eapply Display_trans; [apply Display_set_completionList|].
      apply Display_refresh_, Hself.
    + eapply Display_trans; [apply Display_set_store|].
      apply Display_addSuffix.
  - pose proof (Display_call (CallOnAutocomplete (buffer m)) f (buffer m) m)
      as Hc.
    destruct (call (CallOnAutocomplete (buffer m)) f (buffer m) m) as [c m1].
    simpl in Hc. destruct c as [l|]; [|exact Hc].
    eapply Display_trans; [exact Hc|].
    eapply Display_trans; [apply Display_set_completionList | apply Hself].
Qed.

Lemma Display_autocomplete (m : Machine X) : Display m (autocomplete m).
Proof.
  unfold autocomplete. apply Display_autocomplete_. intros m0.
  apply Display_autocomplete_. intros m1. apply Display_refl.
Qed.

Lemma Display_refresh (complete : bool) (m : Machine X) :
  Display m (refresh complete m).
Proof. apply Display_refresh_, Display_autocomplete. Qed.

(** With a completion list stored, [autocomplete_] never reaches the
    callee it is given. *)
Lemma autocomplete__stored (self self' : Machine X -> Machine X)
    (m : Machine X) (l : Loc) :
  completionList m = Some l ->
  autocomplete_ self m = autocomplete_ self' m.
Proof.
  intros H. unfold autocomplete_. rewrite H.
  destruct (onAutocomplete m); [|reflexivity].
  destruct (arrays (store m) l); reflexivity.
Qed.

(** The definition of [autocomplete] satisfies the recursive equation of
    the source: the callee of its body is [autocomplete] itself. *)
Lemma autocomplete_unfold (m : Machine X) :
  autocomplete m = autocomplete_ autocomplete m.
Proof.
  unfold autocomplete at 1. unfold autocomplete_ at 1 3.
  destruct (onAutocomplete m) as [f|]; [|reflexivity].
  destruct (completionList m) as [l|]; [reflexivity|].
  destruct (call (CallOnAutocomplete (buffer m)) f (buffer m) m) as [c m1].
  destruct c as [l|]; [|reflexivity].
  unfold autocomplete. now apply autocomplete__stored with (l := l).
Qed.

End Rendering.

(** ** The cursor and history invariant *)

Section Invariant.

Context {X : Type} (onLine : Callback X string).

Lemma Inv_same (m m' : Machine X) :
  buffer m' = buffer m -> cursor m' = cursor m ->
  history m' = history m -> history_index m' = history_index m ->
  Inv m -> Inv m'.
Proof. unfold Inv. intros -> -> -> ->. auto. Qed.

Lemma Inv_Display (m m' : Machine X) : Display m m' -> Inv m -> Inv m'.
Proof. intros []. now apply Inv_same. Qed.

Lemma Inv_refresh (complete : bool) (m : Machine X) :
  Inv m -> Inv (refresh complete m).
Proof. apply Inv_Display, Display_refresh. Qed.

Lemma moveCursor_inside (n : Z) (m : Machine X) :
  0 <= cursor m + n <= JS.len (buffer m) ->
  moveCursor n m = refresh true (set_cursor (cursor m + n) m).
Proof.
  intros H. unfold moveCursor. rewrite Z.gtb_ltb.
  destruct (Z.ltb_spec (cursor m + n) 0); [lia|].
  destruct (Z.ltb_spec (JS.len (buffer m)) (cursor m + n)); [lia|].
  reflexivity.
Qed.

Lemma moveCursor_outside (n : Z) (m : Machine X) :
  cursor m + n < 0 \/ JS.len (buffer m) < cursor m + n ->
  moveCursor n m = m.
Proof.
  intros H. unfold moveCursor. rewrite Z.gtb_ltb.
  destruct (Z.ltb_spec (cursor m + n) 0); [reflexivity|].
  destruct (Z.ltb_spec (JS.len (buffer m)) (cursor m + n)); [reflexivity|].
  lia.
Qed.

Lemma Inv_moveCursor (n : Z) (m : Machine X) :
  Inv m -> Inv (moveCursor n m).
Proof.
  intros H.
  destruct (Z_lt_dec (cursor m + n) 0) as [Hlo|Hlo];
    [rewrite moveCursor_outside; auto|].
  destruct (Z_lt_dec (JS.len (buffer m)) (cursor m + n)) as [Hhi|Hhi];
    [rewrite moveCursor_outside; auto|].
  rewrite moveCursor_inside by lia.
  apply Inv_refresh. destruct H as [Hc Hh]. split; simpl; [lia|exact Hh].
Qed.

(** What [appendToBuffer] leaves in the buffer and the cursor, whatever
    the cursor was. *)
Lemma appendToBuffer_line (s : string) (m : Machine X) :
  buffer (appendToBuffer s m) = insertAt (buffer m) (cursor m) s /\
  cursor (appendToBuffer s m) = cursor m + JS.len s /\
  history (appendToBuffer s m) = history m /\
  history_index (appendToBuffer s m) = history_index m.
Proof.
  unfold appendToBuffer.
  match goal with |- context [refresh true ?m0] =>
    destruct (Display_refresh true m0) as [Hb Hc _ _ _ _ Hh Hi _ _] end.
  rewrite Hb, Hc, Hh, Hi. unfold insertAt.
  destruct (cursor m <? JS.len (buffer m)); simpl; auto.
Qed.

Lemma Inv_appendToBuffer (s : string) (m : Machine X) :
  Inv m -> Inv (appendToBuffer s m).
Proof.
  intros [Hc Hh].
  destruct (appendToBuffer_line s m) as (Hb & Hc' & Hh' & Hi').
  split; [|now rewrite Hh', Hi'].
  rewrite Hb, Hc'. pose proof (JSFacts.len_nonneg s). unfold insertAt.
  destruct (Z.ltb_spec (cursor m) (JS.len (buffer m))).
  - rewrite !JSFacts.len_append, JSFacts.len_slice_prefix,
      JSFacts.len_slice_suffix by lia. lia.
  - rewrite JSFacts.len_append. lia.
Qed.

(** After [endLine] the buffer is empty; the line it held, if any, has
    been put in front of the history. *)
Lemma endLine_line (m : Machine X) :
  buffer (endLine onLine m) = "" /\
  (JS.truthy (buffer m) = true -> cursor (endLine onLine m) = 0) /\
  (JS.truthy (buffer m) = false -> cursor (endLine onLine m) = cursor m) /\
  history (endLine onLine m)
  = (if JS.truthy (buffer m) then buffer m :: history m else history m) /\
  history_index (endLine onLine m) = history_index m.
Proof.
  unfold endLine.
  match goal with |- context [refresh true ?m0] =>
    destruct (Display_refresh true m0) as [Hb Hc _ _ _ _ Hh Hi _ _] end.
  rewrite Hb, Hc, Hh, Hi. clear Hb Hc Hh Hi.
  destruct (JS.truthy (buffer m)) eqn:Ht.
  - destruct (Display_refresh false m) as [Hb Hc _ _ _ _ Hh Hi _ _].
    match goal with |- context [call ?e ?f ?a ?m0] =>
      pose proof (Display_call e f a m0) as Hcall;
      destruct (call e f a m0) as [r m1] end.
    destruct Hcall as [Hb1 Hc1 _ _ _ _ Hh1 Hi1 _ _]. simpl in *.
    rewrite Hb1, Hc1, Hh1, Hi1, Hb, Hh, Hi.
    repeat split; auto. discriminate.
  - simpl. apply JSFacts.truthy_len in Ht. rewrite Ht.
    repeat split; auto. discriminate.
Qed.

Lemma Inv_endLine (m : Machine X) : Inv m -> Inv (endLine onLine m).
Proof.
  intros [Hc Hh].
  destruct (endLine_line m) as (Hb & Hc1 & Hc2 & Hh' & Hi').
  split.
  - rewrite Hb. destruct (JS.truthy (buffer m)) eqn:Ht.
    + rewrite Hc1 by reflexivity. unfold JS.len. simpl. lia.
    + rewrite Hc2 by reflexivity. apply JSFacts.truthy_len in Ht.
      rewrite Ht in Hc. exact Hc.
  - rewrite Hh', Hi'. destruct (JS.truthy (buffer m)); cbn [List.length]; lia.
Qed.

Lemma Inv_insertLines (lines : list string) :
  forall (i : nat) (m : Machine X),
    Inv m -> Inv (insertLines onLine i lines m).
Proof.
  induction lines as [|line rest IH]; intros i m H; simpl; [exact H|].
  apply IH, Inv_appendToBuffer.
  destruct (0 <? i)%nat; [now apply Inv_endLine | exact H].
Qed.

End Invariant.

(** ** What a key event can change *)

Section Handler.

Context {X : Type} (onLine : Callback X string).

Lemma Progress_refl (m : Machine X) : Progress m m.
Proof. constructor; try reflexivity. exists []. now rewrite app_nil_r. Qed.

Lemma Progress_trans (m1 m2 m3 : Machine X) :
  Progress m1 m2 -> Progress m2 m3 -> Progress m1 m3.
Proof.
  intros [] []. constructor; try congruence.
  destruct progress_log0 as [l1 H1], progress_log1 as [l2 H2].
  exists (l1 ++ l2)%list. now rewrite H2, H1, app_assoc.
Qed.

Lemma Display_Progress (m m' : Machine X) : Display m m' -> Progress m m'.
Proof. intros []. constructor; assumption. Qed.

Lemma Progress_fields (m m' : Machine X) :
  prefix m' = prefix m -> transformBuffer m' = transformBuffer m ->
  onAutocomplete m' = onAutocomplete m ->
  closeOnThisOne m' = closeOnThisOne m -> log m' = log m ->
  Progress m m'.
Proof.
  intros Hp Ht Ho Hc Hl. constructor; auto.
  exists []. now rewrite app_nil_r.
Qed.

Lemma Progress_refresh (complete : bool) (m : Machine X) :
  Progress m (refresh complete m).
Proof. apply Display_Progress, Display_refresh. Qed.

Lemma Progress_appendToBuffer (s : string) (m : Machine X) :
  Progress m (appendToBuffer s m).
Proof.
  unfold appendToBuffer.
  eapply Progress_trans; [|apply Progress_refresh].
  destruct (cursor m <? JS.len (buffer m)); now apply Progress_fields.
Qed.

Lemma Progress_moveCursor (n : Z) (m : Machine X) :
  Progress m (moveCursor n m).
Proof.
  unfold moveCursor.
  destruct ((cursor m + n <? 0) || (cursor m + n >? JS.len (buffer m)));
    [apply Progress_refl|].
  eapply Progress_trans; [|apply Progress_refresh].
  now apply Progress_fields.
Qed.

Lemma Progress_endLine (m : Machine X) : Progress m (endLine onLine m).
Proof.
  unfold endLine.
  eapply Progress_trans; [|apply Progress_refresh].
  destruct (JS.truthy (buffer m)).
  - match goal with |- context [call ?e ?f ?a ?m0] =>
      pose proof (Display_Progress _ _ (Display_call e f a m0)) as Hcall;
      assert (H0 : Progress m m0);
      [|destruct (call e f a m0) as [r m1]] end.
    + eapply Progress_trans; [apply (Progress_refresh false)|].
      constructor; try reflexivity.
      exists [Cork; Write newline]. simpl. now rewrite <- app_assoc.
    + simpl in Hcall.
      eapply Progress_trans; [exact H0|].
      eapply Progress_trans; [exact Hcall|].
      constructor; try reflexivity.
      exists [Write (r ++ newline); Uncork]. simpl. now rewrite <- app_assoc.
  - apply Display_Progress, Display_emit.
Qed.

Lemma Progress_insertLines (lines : list string) :
  forall (i : nat) (m : Machine X),
    Progress m (insertLines onLine i lines m).
Proof.
  induction lines as [|line rest IH]; intros i m; simpl;
    [apply Progress_refl|].
  eapply Progress_trans; [|apply IH].
  eapply Progress_trans; [|apply Progress_appendToBuffer].
  destruct (0 <? i)%nat; [apply Progress_endLine | apply Progress_refl].
Qed.

Lemma index_inside {A : Type} (a : list A) (i : Z) :
  0 <= i < Z.of_nat (List.length a) -> exists x, JS.index a i = Some x.
Proof.
  intros H. unfold JS.index.
  destruct (Z.ltb_spec i 0); [lia|].
  destruct (nth_error a (Z.to_nat i)) as [x|] eqn:E; [now exists x|].
  apply nth_error_None in E. lia.
Qed.

Lemma len_backspace (b : string) (c : Z) :
  0 < c <= JS.len b ->
  JS.len (JS.slice b 0 (c - 1) ++ JS.slice b c (JS.len b)) = JS.len b - 1.
Proof.
  intros H.
  rewrite JSFacts.len_append, JSFacts.len_slice_prefix,
    JSFacts.len_slice_suffix by lia.
  lia.
Qed.

(** Whenever the switch returns, it has stayed within [Progress]. *)
Lemma dispatch_Progress (s : string) (key : Key) (m m' : Machine X) :
  dispatch onLine s key m = Undefined m' -> Progress m m'.
Proof.
  unfold dispatch. intros E.
  assert (Hset : forall m0, Progress m m0 -> Undefined (refresh true m0)
                            = Undefined m' -> Progress m m').
  { intros m0 H0 E0. injection E0 as <-.
    eapply Progress_trans; [exact H0 | apply Progress_refresh]. }
  assert (Hid : Undefined m = Undefined m' -> Progress m m').
  { intros E0. injection E0 as <-. apply Progress_refl. }
  assert (Hmove : forall n m0, Progress m m0 ->
            Undefined (moveCursor n m0) = Undefined m' -> Progress m m').
  { intros n m0 H0 E0. injection E0 as <-.
    eapply Progress_trans; [exact H0 | apply Progress_moveCursor]. }
  destruct (nameIs key "up").
  { destruct (history_index m >=? _); [auto|]. simpl in E.
    destruct (JS.index _ _); [|discriminate].
    eapply Hset; [|exact E]. now apply Progress_fields. }
  destruct (nameIs key "down").
  { destruct (history_index m <=? 0).
    - eapply Hset; [|exact E]. now apply Progress_fields.
    - simpl in E. destruct (JS.index _ _); [|discriminate].
      eapply Hset; [|exact E]. now apply Progress_fields. }
  destruct (nameIs key "left").
  { eapply Hmove; [apply Progress_refl | exact E]. }
  destruct (nameIs key "right").
  { destruct (cursor m =? JS.len (buffer m)).
    - destruct (JS.truthy (suffix m)); [|auto].
      eapply Hset; [|exact E]. now apply Progress_fields.
    - eapply Hmove; [apply Progress_refl | exact E]. }
  destruct (nameIs key "delete" || nameIs key "backspace").
  { destruct (cursor m =? 0); [auto|].
    eapply Hmove; [|exact E]. now apply Progress_fields. }
  destruct (nameIs key "tab").
  { injection E as <-. apply Display_Progress, Display_autocomplete. }
  destruct (JS.truthy s); [|auto].
  injection E as <-.
  eapply Progress_trans; [|apply Progress_insertLines].
  now apply Progress_fields.
Qed.

(** From a state that satisfies the invariant the switch never throws, and
    it keeps the invariant. *)
Lemma dispatch_Inv (s : string) (key : Key) (m : Machine X) :
  Inv m -> exists m', dispatch onLine s key m = Undefined m' /\ Inv m'.
Proof.
  intros HI. pose proof HI as [Hc Hh]. unfold dispatch.
  destruct (nameIs key "up").
  { destruct (Z.geb_spec (history_index m)
                (Z.of_nat (List.length (history m)) - 1)) as [Hge|Hlt].
    - now exists m.
    - simpl.
      destruct (index_inside (history m) (history_index m + 1)) as [b Hb];
        [lia|]. rewrite Hb. pose proof (JSFacts.len_nonneg b).
      eexists. split; [reflexivity|].
      apply Inv_refresh. split; simpl; lia. }
  destruct (nameIs key "down").
  { destruct (Z.leb_spec (history_index m) 0) as [Hle|Hgt].
    - eexists. split; [reflexivity|].
      apply Inv_refresh. split; simpl; [unfold JS.len; simpl; lia|lia].
    - simpl.
      destruct (index_inside (history m) (history_index m - 1)) as [b Hb];
        [lia|]. rewrite Hb. pose proof (JSFacts.len_nonneg b).
      eexists. split; [reflexivity|].
      apply Inv_refresh. split; simpl; lia. }
  destruct (nameIs key "left").
  { eexists. split; [reflexivity|]. now apply Inv_moveCursor. }
  destruct (nameIs key "right").
  { destruct (Z.eqb_spec (cursor m) (JS.len (buffer m))) as [He|Hne].
    - destruct (JS.truthy (suffix m)); [|now exists m].
      eexists. split; [reflexivity|].
      apply Inv_refresh. split; simpl; [|lia].
      rewrite JSFacts.len_append.
      pose proof (JSFacts.len_nonneg (suffix m)). lia.
    - eexists. split; [reflexivity|]. now apply Inv_moveCursor. }
  destruct (nameIs key "delete" || nameIs key "backspace").
  { destruct (Z.eqb_spec (cursor m) 0) as [He|Hne]; [now exists m|].
    eexists. split; [reflexivity|].
    pose proof (len_backspace (buffer m) (cursor m)) as Hlen.
    rewrite moveCursor_inside by (simpl; lia).
    apply Inv_refresh. split; simpl; lia. }
  destruct (nameIs key "tab").
  { eexists. split; [reflexivity|].
    eapply Inv_Display; [apply Display_autocomplete | exact HI]. }
  destruct (JS.truthy s); [|now exists m].
  eexists. split; [reflexivity|].
  apply Inv_insertLines. split; simpl; lia.
Qed.

(** The trace only grows. *)
Lemma onKey_log (s : string) (key : Key) (m m' : Machine X) :
  onKey onLine s key m = Undefined m' \/ onKey onLine s key m = MinusOne m' ->
  exists l, log m' = (log m ++ l)%list.
Proof.
  unfold onKey.
  destruct (isExit key).
  { intros [E|E]; [discriminate|]. injection E as <-.
    exists []. now rewrite app_nil_r. }
  destruct (isInterrupt key).
  { destruct (closeOnThisOne m).
    - intros [E|E]; [discriminate|]. injection E as <-.
      exists []. now rewrite app_nil_r.
    - intros [E|E]; [|discriminate]. injection E as <-.
      now exists [Write exitWarning]. }
  intros [E|E].
  - apply dispatch_Progress in E. now destruct E.
  - exfalso. revert E. unfold dispatch.
    repeat match goal with
           | |- context [if ?b then _ else _] => destruct b
           | |- context [match ?o with Some _ => _ | None => _ end] =>
               destruct o
           end; discriminate.
Qed.

Lemma run_log (events : list (string * Key)) :
  forall (m m' : Machine X) (b : bool),
    run onLine events m = Some (m', b) ->
    exists l, log m' = (log m ++ l)%list.
Proof.
  induction events as [|[s key] rest IH]; intros m m' b E; simpl in E.
  - injection E as <- _. exists []. now rewrite app_nil_r.
  - destruct (onKey onLine s key m) as [m1|m1|] eqn:E1; [| |discriminate].
    + destruct (onKey_log s key m m1 (or_introl E1)) as [l1 H1].
      destruct (IH m1 m' b E) as [l2 H2].
      exists (l1 ++ l2)%list. now rewrite H2, H1, app_assoc.
    + injection E as <- _. now apply (onKey_log s key m m1), or_intror.
Qed.

(** The handler as a whole, from a state that satisfies the invariant. *)
Lemma onKey_Inv (s : string) (key : Key) (m : Machine X) :
  Inv m ->
  (onKey onLine s key m = MinusOne m) \/
  (exists m', onKey onLine s key m = Undefined m' /\ Inv m').
Proof.
  intros HI. unfold onKey.
  destruct (isExit key); [now left|].
  destruct (isInterrupt key).
  - destruct (closeOnThisOne m); [now left|]. right.
    eexists. split; [reflexivity|].
    destruct HI as [_ Hh]. split; simpl; [unfold JS.len; simpl; lia|lia].
  - right.
    destruct (dispatch_Inv s key (set_closeOnThisOne false m))
      as (m' & E & HI'); [exact HI|].
    now exists m'.
Qed.

Lemma Inv_construct (oa : option (Callback X (option Loc)))
    (tb : option (Callback X string)) (st : Store X) :
  Inv (construct oa tb st).
Proof. split; simpl; unfold JS.len; simpl; lia. Qed.

Lemma Inv_setPrefix (p : string) (m : Machine X) :
  Inv m -> Inv (setPrefix p m).
Proof.
  intros H. unfold setPrefix. apply Inv_refresh.
  destruct (JS.truthy p); exact H.
Qed.

Lemma reachable_Inv (m : Machine X) : reachable onLine m -> Inv m.
Proof.
  induction 1 as [oa tb st | m s key m' _ IH E | m p _ IH].
  - apply Inv_construct.
  - destruct (onKey_Inv s key m IH) as [E' | (m'' & E' & HI)];
      rewrite E' in E; [discriminate|].
    now injection E as <-.
  - now apply Inv_setPrefix.
Qed.

Lemma run_app (a b : list (string * Key)) :
  forall m : Machine X,
    run onLine (a ++ b) m
    = match run onLine a m with
      | Some (m', false) => run onLine b m'
      | r => r
      end.
Proof.
  induction a as [|[s key] a IH]; intros m; simpl; [reflexivity|].
  destruct (onKey onLine s key m); auto.
Qed.


End Handler.

(** ** Cursor, insertion and the exit guard *)

Section Claims.

Context {X : Type} (onLine : Callback X string).

(** C3.  In every state the editor can reach, whatever key event comes
    next, the handler finishes (it returns [undefined] or [-1], it does not
    throw) and leaves the cursor within the buffer:
    [0 <= cursor <= length(buffer)]. *)
Theorem cursor_stays_within_buffer (m : Machine X) (s : string) (key : Key) :
  reachable onLine m ->
  exists m',
    (onKey onLine s key m = Undefined m' \/ onKey onLine s key m = MinusOne m')
    /\ 0 <= cursor m' <= JS.len (buffer m').
Proof.
  intros Hr. apply reachable_Inv in Hr.
  destruct (onKey_Inv onLine s key m Hr) as [E | (m' & E & HI)].
  - exists m. split; [now right | apply Hr].
  - exists m'. split; [now left | apply HI].
Qed.

(** C5.  With the cursor [c] inside the buffer, [appendToBuffer(s)] leaves
    [buffer[0:c] + s + buffer[c:]] in the buffer (the first [c] characters
    of the old buffer, then [s], then the rest of the old buffer) and
    [c + length(s)] in the cursor. *)
Theorem appendToBuffer_inserts_at_cursor (m : Machine X) (s : string) :
  0 <= cursor m <= JS.len (buffer m) ->
  buffer (appendToBuffer s m)
  = JS.take (Z.to_nat (cursor m)) (buffer m) ++ s
    ++ JS.drop (Z.to_nat (cursor m)) (buffer m)
  /\ cursor (appendToBuffer s m) = cursor m + JS.len s.
Proof.
  intros Hc. destruct (appendToBuffer_line s m) as (Hb & Hc' & _).
  split; [|exact Hc']. rewrite Hb. unfold insertAt.
  destruct (Z.ltb_spec (cursor m) (JS.len (buffer m))) as [Hlt|Hge].
  - now rewrite JSFacts.slice_prefix, JSFacts.slice_suffix.
  - unfold JS.len in *.
    rewrite JSFacts.take_all, JSFacts.drop_all by lia.
    now rewrite JSFacts.append_empty_r.
Qed.

Lemma interrupt_is_no_exit (key : Key) :
  isInterrupt key = true -> isExit key = false.
Proof.
  unfold isInterrupt, isExit, nameIs.
  destruct (ctrl key || meta key); [|reflexivity]. simpl.
  destruct (name key) as [n|]; [|discriminate].
  intros H. apply String.eqb_eq in H. now subst n.
Qed.


End Claims.

(** ** The autocomplete cycle *)

Section Completion.

Context {X : Type} (onLine : Callback X string).

Lemma autocomplete_without_lookup (m : Machine X) :
  onAutocomplete m = None -> autocomplete m = m.
Proof. intros H. rewrite autocomplete_unfold. unfold autocomplete_. now rewrite H. Qed.

Lemma autocomplete_shift (m : Machine X) (f : Callback X (option Loc))
    (l : Loc) (next : string) (rest : list string) :
  onAutocomplete m = Some f -> completionList m = Some l ->
  arrays (store m) l = next :: rest ->
  autocomplete m
  = addSuffix next (set_store (shiftArray l rest (store m)) m).
Proof.
  intros Hf Hl Ha. rewrite autocomplete_unfold. unfold autocomplete_.
  now rewrite Hf, Hl, Ha.
Qed.

Lemma autocomplete_exhausted (m : Machine X) (f : Callback X (option Loc))
    (l : Loc) :
  onAutocomplete m = Some f -> completionList m = Some l ->
  arrays (store m) l = [] ->
  autocomplete m = refresh false (set_completionList None m).
Proof.
  intros Hf Hl Ha. rewrite autocomplete_unfold. unfold autocomplete_.
  now rewrite Hf, Hl, Ha.
Qed.

Lemma autocomplete_query (m : Machine X) (f : Callback X (option Loc))
    (c : option Loc) (st : Store X) :
  onAutocomplete m = Some f -> completionList m = None ->
  f (buffer m) (store m) = (c, st) ->
  autocomplete m
  = let m1 := set_store st (emit (CallOnAutocomplete (buffer m)) m) in
    match c with
    | Some l => autocomplete (set_completionList (Some l) m1)
    | None => m1
    end.
Proof.
  intros Hf Hl Hc. rewrite autocomplete_unfold. unfold autocomplete_ at 1.
  rewrite Hf, Hl. unfold call. rewrite Hc. reflexivity.
Qed.

Lemma addSuffix_shown (s : string) (m : Machine X) :
  paused m = false -> cursor m = JS.len (buffer m) ->
  addSuffix s m
  = emit (CursorTo (cursor m + JS.len (prefix m)))
      (emit (WriteGrey s) (emit ClearScreenDown (set_suffix s m))).
Proof.
  intros Hp Hc. unfold addSuffix. rewrite Hp.
  now destruct (Z.eqb_spec (cursor m) (JS.len (buffer m))).
Qed.

Lemma addSuffix_hidden (s : string) (m : Machine X) :
  paused m = true \/ cursor m <> JS.len (buffer m) -> addSuffix s m = m.
Proof.
  intros H. unfold addSuffix.
  destruct (paused m); [reflexivity|]. destruct H as [H|H]; [discriminate|].
  now destruct (Z.eqb_spec (cursor m) (JS.len (buffer m))).
Qed.

Lemma lookups_app (a b : list Effect) :
  lookups (a ++ b) = (lookups a ++ lookups b)%list.
Proof.
  induction a as [|e a IH]; simpl; [reflexivity|].
  destruct e; simpl; now rewrite ?IH.
Qed.

(** [refresh(false)] when not paused: suggestion and completion list are
    gone and no lookup is made. *)
Lemma refresh_false_clears (m : Machine X) :
  paused m = false ->
  suffix (refresh false m) = "" /\ completionList (refresh false m) = None
  /\ lookups (log (refresh false m)) = lookups (log m).
Proof.
  intros Hp. unfold refresh, refresh_. rewrite Hp.
  set (m1 := clear (set_suffix "" (set_completionList None m))).
  assert (H1 : suffix m1 = "" /\ completionList m1 = None
               /\ lookups (log m1) = lookups (log m)).
  { unfold m1. simpl. rewrite !lookups_app. simpl.
    now rewrite !app_nil_r. }
  destruct H1 as (Hs & Hl & Hq).
  destruct (transformBuffer m1) as [f|].
  - unfold call. destruct (f (buffer m1) (store m1)) as [b st]. simpl.
    rewrite !lookups_app. simpl. rewrite !app_nil_r. auto.
  - simpl. rewrite !lookups_app. simpl. rewrite !app_nil_r. auto.
Qed.

(** C10.  With a lookup supplied and a non-empty completion list stored,
    [autocomplete] first takes the first candidate off the list and then
    calls [addSuffix] with it.  When the editor is paused or the cursor is
    not at the end of the buffer, nothing is displayed (suggestion and
    trace are as before) and the candidate is gone from the list all the
    same; otherwise the candidate becomes the suggestion. *)
Theorem autocomplete_consumes_candidate (m : Machine X)
    (f : Callback X (option Loc)) (l : Loc) (next : string)
    (rest : list string) :
  onAutocomplete m = Some f -> completionList m = Some l ->
  arrays (store m) l = next :: rest ->
  autocomplete m
  = addSuffix next (set_store (shiftArray l rest (store m)) m)
  /\ arrays (store (autocomplete m)) l = rest
  /\ completionList (autocomplete m) = Some l
  /\ (paused m = true \/ cursor m <> JS.len (buffer m) ->
      suffix (autocomplete m) = suffix m /\ log (autocomplete m) = log m)
  /\ (paused m = false -> cursor m = JS.len (buffer m) ->
      suffix (autocomplete m) = next
      /\ log (autocomplete m)
         = (log m ++ [ClearScreenDown; WriteGrey next;
                      CursorTo (cursor m + JS.len (prefix m))])%list).
Proof.
  intros Hf Hl Ha. rewrite (autocomplete_shift m f l next rest Hf Hl Ha).
  split; [reflexivity|].
  set (m1 := set_store (shiftArray l rest (store m)) m).
  assert (Hm1 : arrays (store m1) l = rest)
    by (simpl; now rewrite Nat.eqb_refl).
  destruct (paused m) eqn:Hp.
  { rewrite addSuffix_hidden by (now left).
    repeat split; auto; discriminate. }
  destruct (Z.eq_dec (cursor m) (JS.len (buffer m))) as [Hc|Hc].
  - rewrite addSuffix_shown by assumption. simpl.
    rewrite Nat.eqb_refl. repeat split; auto.
    + destruct H as [H|H]; [discriminate | contradiction].
    + destruct H as [H|H]; [discriminate | contradiction].
    + now rewrite <- !app_assoc.
  - rewrite addSuffix_hidden by (now right).
    repeat split; auto; contradiction.
Qed.

(** The amended C9.  With no lookup supplied, [autocomplete] returns the
    state it was given, and a "tab" key event changes nothing but the
    guard, which it unsets like every key other than ctrl/meta-"c": no
    lookup is called, nothing is rendered, every other field is as
    before. *)
Theorem tab_without_lookup (m : Machine X) (s : string) (key : Key) :
  onAutocomplete m = None -> name key = Some "tab" ->
  autocomplete m = m
  /\ onKey onLine s key m = Undefined (set_closeOnThisOne false m).
Proof.
  intros Hf Hk. split; [now apply autocomplete_without_lookup|].
  unfold onKey, isExit, isInterrupt, dispatch, nameIs. rewrite Hk. simpl.
  rewrite !andb_false_r. simpl.
  now rewrite autocomplete_without_lookup.
Qed.

(** The amended C8.  A [moveCursor] that would take the cursor outside
    [0, length(buffer)] returns the state it was given.  A "left" key event
    at cursor 0, and a "right" key event at the end of the buffer with no
    suggestion, change nothing but the guard, which they unset like every
    key other than ctrl/meta-"c": nothing is rendered, every other field is
    as before. *)
Theorem rejected_move_changes_nothing (m : Machine X) (n : Z) (s : string)
    (key : Key) :
  (cursor m + n < 0 \/ JS.len (buffer m) < cursor m + n ->
   moveCursor n m = m)
  /\ (name key = Some "left" -> cursor m = 0 ->
      onKey onLine s key m = Undefined (set_closeOnThisOne false m))
  /\ (name key = Some "right" -> cursor m = JS.len (buffer m) ->
      suffix m = "" ->
      onKey onLine s key m = Undefined (set_closeOnThisOne false m)).
Proof.
  split; [apply moveCursor_outside|]. split.
  - intros Hk Hc.
    unfold onKey, isExit, isInterrupt, dispatch, nameIs. rewrite Hk. simpl.
    rewrite !andb_false_r. simpl.
    rewrite moveCursor_outside; [reflexivity|]. simpl. lia.
  - intros Hk Hc Hs.
    unfold onKey, isExit, isInterrupt, dispatch, nameIs. rewrite Hk. simpl.
    rewrite !andb_false_r. simpl.
    now rewrite Hc, Z.eqb_refl, Hs.
Qed.

End Completion.

(** ** Cycling through candidates, accepting a suggestion *)

Section Cycling.

Context {X : Type} (onLine : Callback X string).


(** A stored, empty list: it is dropped and the line redrawn bare. *)
Lemma cycle_exhausted (m : Machine X) (f : Callback X (option Loc))
    (l : Loc) :
  onAutocomplete m = Some f -> completionList m = Some l ->
  arrays (store m) l = [] -> paused m = false ->
  suffix (autocomplete m) = ""
  /\ completionList (autocomplete m) = None
  /\ lookups (log (autocomplete m)) = lookups (log m).
Proof.
  intros Hf Hl Ha Hp. rewrite (autocomplete_exhausted m f l Hf Hl Ha).
  now apply (refresh_false_clears (set_completionList None m)).
Qed.




End Cycling.

Section Accepting.

Context {X : Type} (onLine : Callback X string).




End Accepting.

(** ** Submissions of a pasted block *)

Section Paste.

Context {X : Type} (onLine : Callback X string).

Lemma submissions_app (a b : list Effect) :
  submissions (a ++ b) = (submissions a ++ submissions b)%list.
Proof.
  induction a as [|e a IH]; simpl; [reflexivity|].
  destruct e; simpl; now rewrite ?IH.
Qed.

Lemma Quiet_emit (e : Effect) (m : Machine X) :
  silent e = true -> Quiet m (emit e m).
Proof.
  intros H. unfold Quiet. simpl. rewrite submissions_app.
  destruct e; try discriminate; simpl; now rewrite app_nil_r.
Qed.

Lemma Quiet_call {R : Type} (e : Effect) (f : Callback X R) (arg : string)
    (m : Machine X) :
  silent e = true -> Quiet m (snd (call e f arg m)).
Proof.
  intros H. unfold call. destruct (f arg (store m)) as [r st].
  exact (Quiet_emit e m H).
Qed.

Lemma Quiet_addSuffix (s : string) (m : Machine X) :
  Quiet m (addSuffix s m).
Proof.
  unfold addSuffix, Quiet.
  destruct (paused m || negb (cursor m =? JS.len (buffer m)));
    [reflexivity|].
  simpl. rewrite !submissions_app. simpl. now rewrite !app_nil_r.
Qed.

Lemma Quiet_refresh_ (ac : Machine X -> Machine X) (complete : bool)
    (m : Machine X) :
  (forall m0, Quiet m0 (ac m0)) -> Quiet m (refresh_ ac complete m).
Proof.
  intros Hac. unfold refresh_, Quiet.
  destruct (paused m); [reflexivity|].
  set (m1 := clear (set_suffix "" (set_completionList None m))).
  assert (H1 : submissions (log m1) = submissions (log m)).
  { unfold m1. simpl. rewrite !submissions_app. simpl.
    now rewrite !app_nil_r. }
  assert (H2 : Quiet m1 (snd (match transformBuffer m1 with
      | Some f => call (CallTransformBuffer (buffer m1)) f (buffer m1) m1
      | None => (buffer m1, m1) end))).
  { destruct (transformBuffer m1); [now apply Quiet_call | reflexivity]. }
  destruct (match transformBuffer m1 with
      | Some f => call (CallTransformBuffer (buffer m1)) f (buffer m1) m1
      | None => (buffer m1, m1) end) as [b m2].
  unfold Quiet in H2. cbn [snd] in H2. rewrite H1 in H2.
  match goal with |- submissions (log (if _ then ac ?m3 else _)) = _ =>
    assert (H3 : submissions (log m3) = submissions (log m)) end.
  { simpl. rewrite !submissions_app. simpl. rewrite !app_nil_r. congruence. }
  destruct (complete && _); [|exact H3].
  now rewrite Hac.
Qed.

Lemma Quiet_autocomplete_ (self : Machine X -> Machine X) (m : Machine X) :
  (forall m0, Quiet m0 (self m0)) -> Quiet m (autocomplete_ self m).
Proof.
  intros Hself. unfold autocomplete_.
  destruct (onAutocomplete m) as [f|]; [|reflexivity].
  destruct (completionList m) as [l|].
  - destruct (arrays (store m) l) as [|next rest].
    + now apply (Quiet_refresh_ self false (set_completionList None m)).
    + apply (Quiet_addSuffix next (set_store _ m)).
  - pose proof (Quiet_call (CallOnAutocomplete (buffer m)) f (buffer m) m
                  eq_refl) as Hc.
    destruct (call (CallOnAutocomplete (buffer m)) f (buffer m) m) as [c m1].
    simpl in Hc. destruct c as [l|]; [|exact Hc].
    unfold Quiet in *. now rewrite Hself.
Qed.

Lemma Quiet_autocomplete (m : Machine X) : Quiet m (autocomplete m).
Proof.
  unfold autocomplete. apply Quiet_autocomplete_. intros m0.
  apply Quiet_autocomplete_. reflexivity.
Qed.

Lemma Quiet_refresh (complete : bool) (m : Machine X) :
  Quiet m (refresh complete m).
Proof. apply Quiet_refresh_, Quiet_autocomplete. Qed.

Lemma Quiet_appendToBuffer (s : string) (m : Machine X) :
  Quiet m (appendToBuffer s m).
Proof.
  unfold appendToBuffer, Quiet. rewrite Quiet_refresh.
  now destruct (cursor m <? JS.len (buffer m)).
Qed.

(** [endLine] submits the buffer when it is not empty, and nothing
    otherwise. *)
Lemma endLine_submissions (m : Machine X) :
  submissions (log (endLine onLine m))
  = (submissions (log m)
     ++ (if JS.truthy (buffer m) then [buffer m] else []))%list.
Proof.
  unfold endLine. rewrite Quiet_refresh.
  destruct (JS.truthy (buffer m)).
  - destruct (Display_refresh false m) as [Hb _ _ _ _ _ _ _ _ _].
    pose proof (Quiet_refresh false m) as Hq. unfold Quiet in Hq.
    unfold call, pause, unpause. simpl.
    destruct (onLine _ _) as [r st]. simpl.
    rewrite !submissions_app. simpl.
    now rewrite Hb, Hq, !app_nil_r.
  - simpl. rewrite submissions_app. reflexivity.
Qed.

Lemma slice_of_empty (a b : Z) : JS.slice "" a b = "".
Proof.
  unfold JS.slice. rewrite JSFacts.drop_all by (simpl; lia).
  now destruct (Z.to_nat _).
Qed.

Lemma insertAt_empty (c : Z) (s : string) : insertAt "" c s = s.
Proof.
  unfold insertAt. destruct (c <? JS.len ""); [|reflexivity].
  rewrite !slice_of_empty. simpl. apply JSFacts.append_empty_r.
Qed.

Lemma removelast_cons {A : Type} (x : A) (l : list A) :
  l <> [] -> removelast (x :: l) = x :: removelast l.
Proof. destruct l; [congruence | reflexivity]. Qed.

(** The segments after the first: each is preceded by [endLine], which
    submits what the buffer holds at that point. *)
Lemma insertLines_submissions (lines : list string) :
  forall (i : nat) (m : Machine X),
    lines <> [] ->
    submissions (log (insertLines onLine (S i) lines m))
    = (submissions (log m)
       ++ filter JS.truthy (buffer m :: removelast lines))%list.
Proof.
  induction lines as [|line rest IH]; intros i m Hne; [congruence|].
  cbn [insertLines Nat.ltb Nat.leb].
  set (m' := appendToBuffer line (endLine onLine m)).
  assert (Hb : buffer m' = line).
  { unfold m'. destruct (appendToBuffer_line line (endLine onLine m)) as [-> _].
    destruct (endLine_line onLine m) as [-> _]. apply insertAt_empty. }
  assert (Hs : submissions (log m')
               = (submissions (log m)
                  ++ (if JS.truthy (buffer m) then [buffer m] else []))%list).
  { unfold m'. rewrite Quiet_appendToBuffer. apply endLine_submissions. }
  destruct rest as [|line' rest'].
  - simpl. rewrite Hs. now destruct (JS.truthy (buffer m)).
  - rewrite IH by discriminate. rewrite Hs, Hb.
    rewrite (removelast_cons line) by discriminate.
    cbn [filter]. destruct (JS.truthy (buffer m)); simpl.
    + now rewrite <- app_assoc.
    + now rewrite app_nil_r.
Qed.

Lemma length_removelast_cons {A : Type} (x : A) (l : list A) :
  List.length (removelast (x :: l)) = List.length l.
Proof.
  revert x. induction l as [|y l IH]; intros x; [reflexivity|].
  rewrite removelast_cons by discriminate. cbn [List.length].
  now rewrite IH.
Qed.

Lemma filter_all {A : Type} (p : A -> bool) (l : list A) :
  forallb p l = true -> filter p l = l.
Proof.
  induction l as [|x l IH]; simpl; [reflexivity|].
  intros H. apply andb_prop in H as [Hx Hl]. now rewrite Hx, IH.
Qed.

(** The amended C2.  A payload [s] that reaches the default case is split
    into segments [s0 :: rest]; [length rest] is the number of line
    terminators in it.  Handling the payload calls the submission handler
    once for each of these boundaries at which the buffer is not empty,
    in order, with the buffer's content: at the first boundary the buffer
    is the old buffer with [s0] inserted, at each later one it is the
    segment before the boundary.  This makes at most [length rest] calls,
    and exactly that many when none of those buffers is empty.  All of
    them are in the trace before anything that later events add. *)
Theorem paste_submits_nonempty_lines (m : Machine X) (s : string)
    (key : Key) :
  isExit key = false -> isInterrupt key = false -> isEditKey key = false ->
  JS.truthy s = true ->
  exists m' s0 rest,
    JS.splitLines s = s0 :: rest
    /\ onKey onLine s key m = Undefined m'
    /\ submissions (log m')
       = (submissions (log m)
          ++ filter JS.truthy
               (removelast (insertAt (buffer m) (cursor m) s0 :: rest)))%list
    /\ (List.length
          (filter JS.truthy
             (removelast (insertAt (buffer m) (cursor m) s0 :: rest)))
        <= List.length rest)%nat
    /\ (forallb JS.truthy
          (removelast (insertAt (buffer m) (cursor m) s0 :: rest)) = true ->
        List.length
          (filter JS.truthy
             (removelast (insertAt (buffer m) (cursor m) s0 :: rest)))
        = List.length rest)
    /\ (forall events m'' b,
          run onLine events m' = Some (m'', b) ->
          exists l, log m'' = (log m' ++ l)%list).
Proof.
  intros Hx Hi He Hs.
  destruct (JS.splitLines s) as [|s0 rest] eqn:Hsplit;
    [now apply JSFacts.splitLines_nonempty in Hsplit|].
  set (m0 := set_history_index (-1) (set_closeOnThisOne false m)).
  exists (insertLines onLine 0 (s0 :: rest) m0), s0, rest.
  split; [reflexivity|]. split.
  { unfold onKey. rewrite Hx, Hi. unfold dispatch.
    unfold isEditKey in He.
    repeat (apply orb_false_elim in He as [He ?]).
    repeat match goal with H : nameIs key _ = false |- _ =>
             rewrite H; clear H end.
    simpl. now rewrite Hs, Hsplit. }
  split.
  { cbn [insertLines Nat.ltb Nat.leb].
    destruct (appendToBuffer_line s0 m0) as (Hb & _).
    destruct rest as [|s1 rest'].
    - simpl. rewrite Quiet_appendToBuffer. simpl. now rewrite app_nil_r.
    - rewrite insertLines_submissions by discriminate.
      rewrite Quiet_appendToBuffer, Hb.
      now rewrite (removelast_cons (insertAt _ _ _)) by discriminate. }
  split.
  { etransitivity; [apply filter_length_le|].
    now rewrite length_removelast_cons. }
  split.
  { intros Hall. now rewrite filter_all, length_removelast_cons. }
  intros events m'' b. apply run_log.
Qed.

End Paste.

(** ** History navigation *)

Section History.

Context {X : Type} (onLine : Callback X string).

Lemma onKey_down (m : Machine X) (s : string) (key : Key) :
  name key = Some "down" ->
  onKey onLine s key m
  = let m := set_closeOnThisOne false m in
    if history_index m <=? 0 then
      Undefined (refresh true (set_cursor 0 (set_buffer "" m)))
    else
      match JS.index (history m) (history_index m - 1) with
      | None => TypeError
      | Some b =>
          Undefined
            (refresh true
               (set_cursor (JS.len b)
                  (set_buffer b (set_history_index (history_index m - 1) m))))
      end.
Proof.
  intros Hk. unfold onKey, isExit, isInterrupt, dispatch, nameIs.
  rewrite Hk. simpl. now rewrite !andb_false_r.
Qed.

(** "down" while the index is at the newest entry or at [-1]: buffer and
    cursor are cleared and the line redrawn, and the index stays what it
    was. *)
Lemma down_at_newest (m : Machine X) (s : string) (key : Key) :
  name key = Some "down" -> history_index m <= 0 ->
  exists m',
    onKey onLine s key m = Undefined m'
    /\ buffer m' = "" /\ cursor m' = 0
    /\ history_index m' = history_index m.
Proof.
  intros Hk Hi. rewrite onKey_down by assumption. cbv zeta. simpl.
  destruct (Z.leb_spec (history_index m) 0); [|lia].
  eexists. split; [reflexivity|].
  match goal with |- context [refresh true ?m0] =>
    destruct (Display_refresh true m0) end.
  simpl in *. auto.
Qed.

(** X2.  "down" further back in the history: the index goes down by one
    and the entry it then names is copied to the buffer, cursor at its
    end. *)
Lemma down_in_history (m : Machine X) (s : string) (key : Key) :
  name key = Some "down" -> 0 < history_index m ->
  history_index m < Z.of_nat (List.length (history m)) ->
  exists m' b,
    onKey onLine s key m = Undefined m'
    /\ JS.index (history m) (history_index m - 1) = Some b
    /\ history_index m' = history_index m - 1
    /\ buffer m' = b /\ cursor m' = JS.len b.
Proof.
  intros Hk Hi Hlen. rewrite onKey_down by assumption. cbv zeta. simpl.
  destruct (Z.leb_spec (history_index m) 0); [lia|].
  destruct (index_inside (history m) (history_index m - 1)) as [b Hb];
    [lia|].
  rewrite Hb. eexists. exists b. split; [reflexivity|].
  match goal with |- context [refresh true ?m0] =>
    destruct (Display_refresh true m0) end.
  simpl in *. auto.
Qed.

End History.

(** ** The theorems at concrete inputs *)

Import Examples.

(** C1.  "a" and "b" are submitted; up, up show "b" then "a"; down shows
    "b" again, at index 0.  One more "down" clears buffer and cursor but
    leaves the index at 0, not at [-1]: the handler has no assignment to
    the index on this path.  A following "up" therefore moves on to index
    1 and shows "a", passing over "b". *)
Theorem down_at_newest_entry_keeps_index :
  buffer browsing = "b" /\ history browsing = ["b"; "a"]
  /\ history_index browsing = 0
  /\ exists m' m'',
      onKey echo "" (snd (named "down")) browsing = Undefined m'
      /\ buffer m' = "" /\ cursor m' = 0
      /\ history_index m' = 0
      /\ onKey echo "" (snd (named "up")) m' = Undefined m''
      /\ buffer m'' = "a" /\ history_index m'' = 1.
Proof.
  repeat split; try reflexivity.
  eexists. eexists.
  split; [vm_compute; reflexivity|].
  repeat split; try reflexivity.
Qed.

(** C2, as stated, fails: a payload that is one line terminator has one
    boundary, and on an empty buffer it submits nothing. *)
Lemma paste_of_newline_submits_nothing :
  JS.splitLines newline = [""; ""]
  /\ buffer plainEditor = ""
  /\ exists m',
      onKey echo newline pasteKey plainEditor = Undefined m'
      /\ submissions (log m') = [].
Proof.
  repeat split. eexists. split; [vm_compute; reflexivity | reflexivity].
Qed.

(** The amended C2 on a paste of "x", a line feed, "y". *)
Lemma paste_submits_nonempty_lines_witness :
  exists m',
    onKey echo ("x" ++ newline ++ "y") pasteKey plainEditor = Undefined m'
    /\ submissions (log m') = ["x"].
Proof.
  destruct (paste_submits_nonempty_lines echo plainEditor
              ("x" ++ newline ++ "y") pasteKey)
    as (m' & s0 & rest & Hsplit & E & Hsub & _);
    try reflexivity.
  exists m'. split; [exact E|].
  vm_compute in Hsplit. injection Hsplit as <- <-. exact Hsub.
Defined.

(** C3 on a fresh editor and the key "a". *)
Lemma cursor_stays_within_buffer_witness :
  reachable echo plainEditor
  /\ exists m',
      (onKey echo "a" (snd (typed "a")) plainEditor = Undefined m'
       \/ onKey echo "a" (snd (typed "a")) plainEditor = MinusOne m')
      /\ 0 <= cursor m' <= JS.len (buffer m').
Proof.
  split; [apply reach_construct|].
  apply (cursor_stays_within_buffer echo plainEditor "a" (snd (typed "a"))).
  apply reach_construct.
Defined.


(** C5 on "held" with the cursor after "he". *)
Lemma appendToBuffer_inserts_at_cursor_witness :
  0 <= cursor (holding "held" 2) <= JS.len (buffer (holding "held" 2))
  /\ buffer (appendToBuffer "XY" (holding "held" 2)) = "heXYld"
  /\ cursor (appendToBuffer "XY" (holding "held" 2)) = 4.
Proof.
  assert (H : 0 <= cursor (holding "held" 2)
              <= JS.len (buffer (holding "held" 2)))
    by (vm_compute; split; discriminate).
  split; [exact H|].
  exact (appendToBuffer_inserts_at_cursor (holding "held" 2) "XY" H).
Defined.




(** C8, as stated, fails: "left" at cursor 0 unsets an armed guard. *)
Lemma left_at_start_unsets_guard :
  cursor armed = 0 /\ closeOnThisOne armed = true
  /\ exists m',
      onKey echo "" (snd (named "left")) armed = Undefined m'
      /\ closeOnThisOne m' = false /\ m' <> armed.
Proof.
  repeat split. eexists. split; [vm_compute; reflexivity|].
  split; [reflexivity|].
  intros H. apply (f_equal closeOnThisOne) in H. discriminate H.
Qed.

(** The amended C8 on a fresh editor, whose cursor is at both ends of the
    empty buffer. *)
Lemma rejected_move_changes_nothing_witness :
  cursor plainEditor + -1 < 0
  /\ moveCursor (-1) plainEditor = plainEditor
  /\ onKey echo "" (snd (named "left")) plainEditor
     = Undefined (set_closeOnThisOne false plainEditor)
  /\ onKey echo "" (snd (named "right")) plainEditor
     = Undefined (set_closeOnThisOne false plainEditor).
Proof.
  assert (H : cursor plainEditor + -1 < 0) by reflexivity.
  destruct (rejected_move_changes_nothing echo plainEditor (-1) ""
              (snd (named "left"))) as (Hm & Hl & _).
  destruct (rejected_move_changes_nothing echo plainEditor (-1) ""
              (snd (named "right"))) as (_ & _ & Hr).
  repeat split; auto using or_introl.
Defined.

(** C9, as stated, fails: "tab" without a lookup unsets an armed guard. *)
Lemma tab_without_lookup_unsets_guard :
  onAutocomplete armed = None /\ closeOnThisOne armed = true
  /\ exists m',
      onKey echo "" (snd (named "tab")) armed = Undefined m'
      /\ closeOnThisOne m' = false /\ m' <> armed.
Proof.
  repeat split. eexists. split; [vm_compute; reflexivity|].
  split; [reflexivity|].
  intros H. apply (f_equal closeOnThisOne) in H. discriminate H.
Qed.

(** The amended C9 on a fresh editor without lookup. *)
Lemma tab_without_lookup_witness :
  onAutocomplete plainEditor = None
  /\ autocomplete plainEditor = plainEditor
  /\ onKey echo "" (snd (named "tab")) plainEditor
     = Undefined (set_closeOnThisOne false plainEditor).
Proof.
  split; [reflexivity|].
  exact (tab_without_lookup echo plainEditor "" (snd (named "tab"))
           eq_refl eq_refl).
Defined.

(** C10 with the cursor inside "ab": "abd" is taken off the list and
    nothing is shown. *)
Lemma autocomplete_consumes_candidate_witness :
  completionList midLine = Some 2%nat
  /\ arrays (store midLine) 2%nat = ["abd"]
  /\ cursor midLine <> JS.len (buffer midLine)
  /\ arrays (store (autocomplete midLine)) 2%nat = []
  /\ suffix (autocomplete midLine) = suffix midLine
  /\ log (autocomplete midLine) = log midLine.
Proof.
  assert (Hc : cursor midLine <> JS.len (buffer midLine))
    by (vm_compute; discriminate).
  destruct (autocomplete_consumes_candidate midLine
              (lookupFresh ["abc"; "abd"]) 2%nat "abd" []
              eq_refl eq_refl eq_refl)
    as (_ & Ha & _ & Hhidden & _).
  destruct (Hhidden (or_intror Hc)) as [Hs Hl].
  split; [vm_compute; reflexivity|]. split; [vm_compute; reflexivity|].
  split; [exact Hc|]. split; [exact Ha|]. split; [exact Hs | exact Hl].
Defined.

(** Pasting "x", a line feed and "y" into an empty editor submits "x",
    once, and leaves "y" in the buffer. *)
Example paste_of_two_lines :
  submissions (log (after [pasted ("x" ++ newline ++ "y")] plainEditor))
  = ["x"]
  /\ buffer (after [pasted ("x" ++ newline ++ "y")] plainEditor) = "y"
  /\ history (after [pasted ("x" ++ newline ++ "y")] plainEditor) = ["x"].
Proof. repeat split; vm_compute; reflexivity. Qed.

(** Right after "ab" is typed the preview has shown "abc" already, so the
    first "tab" shows "abd". *)
Example tab_after_preview :
  suffix previewing = "abc"
  /\ suffix (after [named "tab"] previewing) = "abd".
Proof. split; vm_compute; reflexivity. Qed.

(** A lookup that hands out the same array object again gets it back as
    [shift] left it: the preview for "a" takes "abc" from it, the preview
    for "ab" takes "abd", and from then on every "tab" that asks the lookup
    receives the emptied array and shows nothing. *)
Example cached_array_is_used_up :
  suffix previewingCached = "abd"
  /\ suffix (after [named "tab"] previewingCached) = ""
  /\ suffix (after [named "tab"; named "tab"] previewingCached) = ""
  /\ lookups (log (after [named "tab"; named "tab"] previewingCached))
     = ["a"; "ab"; "ab"].
Proof. repeat split; vm_compute; reflexivity. Qed.

(** * Further properties of the editor *)

(** ** Browsing the history *)

Section Browsing.

Context {X : Type} (onLine : Callback X string).

Lemma onKey_up (m : Machine X) (s : string) (key : Key) :
  name key = Some "up" ->
  onKey onLine s key m
  = let m := set_closeOnThisOne false m in
    if history_index m >=? Z.of_nat (List.length (history m)) - 1 then
      Undefined m
    else
      match JS.index (history m) (history_index m + 1) with
      | None => TypeError
      | Some b =>
          Undefined
            (refresh true
               (set_cursor (JS.len b)
                  (set_buffer b (set_history_index (history_index m + 1) m))))
      end.
Proof.
  intros Hk. unfold onKey, isExit, isInterrupt, dispatch, nameIs.
  rewrite Hk. simpl. now rewrite !andb_false_r.
Qed.

(** X1.  "up" with an older entry left moves the index one entry back and
    copies that entry to the buffer, cursor at its end; the history itself
    is not touched.  At the oldest entry, and with an empty history, "up"
    changes nothing but the guard and renders nothing. *)
Theorem up_moves_back_in_history (m : Machine X) (s : string) (key : Key) :
  name key = Some "up" ->
  (-1 <= history_index m ->
   history_index m < Z.of_nat (List.length (history m)) - 1 ->
   exists m' b,
     onKey onLine s key m = Undefined m'
     /\ JS.index (history m) (history_index m + 1) = Some b
     /\ history_index m' = history_index m + 1
     /\ buffer m' = b /\ cursor m' = JS.len b
     /\ history m' = history m)
  /\ (Z.of_nat (List.length (history m)) - 1 <= history_index m ->
      onKey onLine s key m = Undefined (set_closeOnThisOne false m)).
Proof.
  intros Hk. rewrite onKey_up by assumption. cbv zeta. simpl. split.
  - intros Hlo Hhi.
    destruct (Z.geb_spec (history_index m)
                (Z.of_nat (List.length (history m)) - 1)); [lia|].
    destruct (index_inside (history m) (history_index m + 1)) as [b Hb];
      [lia|].
    rewrite Hb. eexists. exists b. split; [reflexivity|].
    match goal with |- context [refresh true ?m0] =>
      destruct (Display_refresh true m0) end.
    simpl in *. auto.
  - intros Hge.
    destruct (Z.geb_spec (history_index m)
                (Z.of_nat (List.length (history m)) - 1)); [reflexivity|lia].
Qed.

(** X3.  While browsing at entry [i] with an older entry behind it, "up"
    followed by "down" comes back to entry [i]: the index is [i] again, the
    buffer holds that entry with the cursor at its end, and the history is
    as before. *)
Theorem up_then_down_returns (m : Machine X) (s s' : string)
    (up down : Key) :
  name up = Some "up" -> name down = Some "down" ->
  0 <= history_index m ->
  history_index m < Z.of_nat (List.length (history m)) - 1 ->
  exists m' b,
    run onLine [(s, up); (s', down)] m = Some (m', false)
    /\ JS.index (history m) (history_index m) = Some b
    /\ history_index m' = history_index m
    /\ buffer m' = b /\ cursor m' = JS.len b
    /\ history m' = history m.
Proof.
  intros Hu Hd Hlo Hhi. cbn [run].
  rewrite onKey_up by assumption. cbv zeta. simpl.
  destruct (Z.geb_spec (history_index m)
              (Z.of_nat (List.length (history m)) - 1)); [lia|].
  destruct (index_inside (history m) (history_index m + 1)) as [b1 Hb1];
    [lia|].
  rewrite Hb1.
  match goal with |- context [onKey onLine s' down ?m1] =>
    set (m1' := m1);
    assert (D : history m1' = history m
                /\ history_index m1' = history_index m + 1) end.
  { unfold m1'.
    match goal with |- context [refresh true ?m0] =>
      destruct (Display_refresh true m0) end.
    simpl in *. auto. }
  destruct D as [Dh Di].
  rewrite onKey_down by assumption. cbv zeta. simpl.
  rewrite Dh, Di.
  destruct (Z.leb_spec (history_index m + 1) 0); [lia|].
  replace (history_index m + 1 - 1) with (history_index m) by lia.
  destruct (index_inside (history m) (history_index m)) as [b Hb]; [lia|].
  rewrite Hb. eexists. exists b. split; [reflexivity|].
  match goal with |- context [refresh true ?m0] =>
    destruct (Display_refresh true m0) end.
  simpl in *. repeat split; congruence.
Qed.

End Browsing.

(** ** Moving and deleting *)

Module JSMore.
Import JS.

Lemma take_drop (n : nat) (s : string) : take n s ++ drop n s = s.
Proof.
  revert s. induction n as [|n IH]; intros [|c s]; simpl; auto.
  now rewrite IH.
Qed.

Lemma append_assoc (a b c : string) : (a ++ b) ++ c = a ++ b ++ c.
Proof. induction a as [|x a IH]; simpl; congruence. Qed.

Lemma take_append (p q : string) (i : nat) :
  take (String.length p + i) (p ++ q) = p ++ take i q.
Proof. induction p as [|c p IH]; simpl; congruence. Qed.

Lemma drop_append (p q : string) (i : nat) :
  drop (String.length p + i) (p ++ q) = drop i q.
Proof. induction p as [|c p IH]; simpl; congruence. Qed.

Lemma take_within (t r : string) (i : nat) :
  (i <= String.length t)%nat -> take i (t ++ r) = take i t.
Proof.
  revert t. induction i as [|i IH]; intros [|c t] H; simpl in *; auto.
  - lia.
  - rewrite IH; auto. lia.
Qed.

Lemma drop_exact (t r : string) : drop (String.length t) (t ++ r) = r.
Proof. induction t as [|c t IH]; simpl; auto. Qed.

Lemma length_append (a b : string) :
  String.length (a ++ b) = (String.length a + String.length b)%nat.
Proof. induction a as [|c a IH]; simpl; congruence. Qed.

End JSMore.

Section Editing.

Context {X : Type} (onLine : Callback X string).

(** The buffer [appendToBuffer] computes, with the cursor inside the
    buffer: what is before the cursor, the text, what is after it. *)
Lemma insertAt_inside (b : string) (c : Z) (s : string) :
  0 <= c <= JS.len b ->
  insertAt b c s
  = JS.take (Z.to_nat c) b ++ s ++ JS.drop (Z.to_nat c) b.
Proof.
  intros Hc. unfold insertAt.
  destruct (Z.ltb_spec c (JS.len b)) as [Hlt|Hge].
  - now rewrite JSFacts.slice_prefix, JSFacts.slice_suffix.
  - unfold JS.len in *.
    rewrite JSFacts.take_all, JSFacts.drop_all by lia.
    now rewrite JSFacts.append_empty_r.
Qed.

(** A key that the switch handles as "delete"/"backspace". *)
Definition erases (key : Key) : Prop :=
  name key = Some "backspace" \/ name key = Some "delete".

Lemma onKey_erase (m : Machine X) (s : string) (key : Key) :
  erases key ->
  onKey onLine s key m
  = let m := set_closeOnThisOne false m in
    if cursor m =? 0 then Undefined m
    else
      Undefined
        (moveCursor (-1)
           (set_buffer
              (JS.slice (buffer m) 0 (cursor m - 1)
               ++ JS.slice (buffer m) (cursor m) (JS.len (buffer m))) m)).
Proof.
  intros [Hk|Hk]; unfold onKey, isExit, isInterrupt, dispatch, nameIs;
    rewrite Hk; simpl; now rewrite !andb_false_r.
Qed.

Lemma erase_step (m : Machine X) (s : string) (key : Key) :
  erases key -> 0 < cursor m <= JS.len (buffer m) ->
  exists m',
    onKey onLine s key m = Undefined m'
    /\ buffer m'
       = JS.take (Z.to_nat (cursor m - 1)) (buffer m)
         ++ JS.drop (Z.to_nat (cursor m)) (buffer m)
    /\ cursor m' = cursor m - 1
    /\ history m' = history m /\ history_index m' = history_index m.
Proof.
  intros Hk Hc. rewrite onKey_erase by assumption. cbv zeta. simpl.
  destruct (Z.eqb_spec (cursor m) 0); [lia|].
  pose proof (len_backspace (buffer m) (cursor m) Hc) as Hlen.
  rewrite moveCursor_inside by (simpl; lia).
  eexists. split; [reflexivity|].
  match goal with |- context [refresh true ?m0] =>
    destruct (Display_refresh true m0) as [Db Dc _ _ _ _ Dh Di _ _] end.
  simpl in *. rewrite Db, Dc, Dh, Di.
  rewrite JSFacts.slice_prefix, JSFacts.slice_suffix by lia.
  auto.
Qed.

(** X5.  "delete" or "backspace" with the cursor inside or at the end of
    the buffer removes the one character before the cursor and moves the
    cursor one to the left, so the buffer is one shorter; history and
    history index are untouched.  At cursor 0 the key changes nothing but
    the guard and renders nothing. *)
Theorem backspace_removes_char_before_cursor (m : Machine X) (s : string)
    (key : Key) :
  erases key ->
  (0 < cursor m <= JS.len (buffer m) ->
   exists m',
     onKey onLine s key m = Undefined m'
     /\ buffer m'
        = JS.take (Z.to_nat (cursor m - 1)) (buffer m)
          ++ JS.drop (Z.to_nat (cursor m)) (buffer m)
     /\ JS.len (buffer m') = JS.len (buffer m) - 1
     /\ cursor m' = cursor m - 1
     /\ history m' = history m /\ history_index m' = history_index m)
  /\ (cursor m = 0 ->
      onKey onLine s key m = Undefined (set_closeOnThisOne false m)).
Proof.
  intros Hk. split.
  - intros Hc.
    destruct (erase_step m s key Hk Hc) as (m' & E & Hb & Hc' & Hh & Hi).
    exists m'. repeat split; auto.
    rewrite Hb. unfold JS.len in *.
    rewrite JSMore.length_append, JSFacts.length_take, JSFacts.length_drop.
    lia.
  - intros Hc. rewrite onKey_erase by assumption. cbv zeta. simpl.
    now rewrite Hc.
Qed.

(** X4.  "left" with the cursor after the start moves it one to the left,
    "right" with the cursor before the end moves it one to the right; the
    buffer, the history and the history index are untouched. *)
Theorem arrows_move_cursor_by_one (m : Machine X) (s : string) (key : Key) :
  (name key = Some "left" -> 0 < cursor m <= JS.len (buffer m) ->
   exists m',
     onKey onLine s key m = Undefined m'
     /\ cursor m' = cursor m - 1 /\ buffer m' = buffer m
     /\ history m' = history m /\ history_index m' = history_index m)
  /\ (name key = Some "right" -> 0 <= cursor m < JS.len (buffer m) ->
      exists m',
        onKey onLine s key m = Undefined m'
        /\ cursor m' = cursor m + 1 /\ buffer m' = buffer m
        /\ history m' = history m /\ history_index m' = history_index m).
Proof.
  split; intros Hk Hc;
    unfold onKey, isExit, isInterrupt, dispatch, nameIs; rewrite Hk; simpl;
    rewrite !andb_false_r; simpl.
  - rewrite moveCursor_inside by (simpl; lia).
    eexists. split; [reflexivity|].
    match goal with |- context [refresh true ?m0] =>
      destruct (Display_refresh true m0) end.
    simpl in *. repeat split; auto.
  - destruct (Z.eqb_spec (cursor m) (JS.len (buffer m))); [lia|].
    rewrite moveCursor_inside by (simpl; lia).
    eexists. split; [reflexivity|].
    match goal with |- context [refresh true ?m0] =>
      destruct (Display_refresh true m0) end.
    simpl in *. repeat split; auto.
Qed.

(** A payload without line terminator reaching the default case is
    inserted at the cursor. *)
Lemma text_step (m : Machine X) (s : string) (key : Key) :
  isExit key = false -> isInterrupt key = false -> isEditKey key = false ->
  JS.truthy s = true -> JS.splitLines s = [s] ->
  onKey onLine s key m
  = Undefined
      (appendToBuffer s
         (set_history_index (-1) (set_closeOnThisOne false m))).
Proof.
  intros Hx Hi He Hs Hsplit. unfold onKey. rewrite Hx, Hi. unfold dispatch.
  unfold isEditKey in He.
  repeat (apply orb_false_elim in He as [He ?]).
  repeat match goal with H : nameIs key _ = false |- _ =>
           rewrite H; clear H end.
  simpl. now rewrite Hs, Hsplit.
Qed.

(** Erasing, one key at a time, a text [t] that stands right before the
    cursor. *)
Lemma erase_run (s' : string) (bs : Key) (p r : string) :
  erases bs ->
  forall (n : nat) (t : string) (m : Machine X),
    String.length t = n ->
    buffer m = p ++ t ++ r -> cursor m = JS.len p + JS.len t ->
    exists m',
      run onLine (repeat (s', bs) n) m = Some (m', false)
      /\ buffer m' = p ++ r /\ cursor m' = JS.len p.
Proof.
  intros Hk. induction n as [|n IH]; intros t m Ht Hb Hc.
  - destruct t; [|discriminate]. exists m.
    split; [reflexivity|]. split; [exact Hb|].
    rewrite Hc. unfold JS.len. simpl. lia.
  - assert (Hlen : JS.len (buffer m) = JS.len p + JS.len t + JS.len r)
      by (rewrite Hb, !JSFacts.len_append; lia).
    pose proof (JSFacts.len_nonneg p). pose proof (JSFacts.len_nonneg r).
    assert (Hlt : JS.len t = Z.of_nat (S n)) by (unfold JS.len; now rewrite Ht).
    destruct (erase_step m s' bs Hk) as (m1 & E & Hb1 & Hc1 & _); [lia|].
    assert (Hb1' : buffer m1 = p ++ JS.take n t ++ r).
    { rewrite Hb1, Hb, Hc.
      replace (Z.to_nat (JS.len p + JS.len t - 1))
        with (String.length p + n)%nat by (unfold JS.len in *; lia).
      replace (Z.to_nat (JS.len p + JS.len t))
        with (String.length p + String.length t)%nat
        by (unfold JS.len in *; lia).
      rewrite JSMore.take_append, JSMore.drop_append, JSMore.drop_exact.
      rewrite JSMore.take_within by lia.
      apply JSMore.append_assoc. }
    assert (Hn : String.length (JS.take n t) = n)
      by (rewrite JSFacts.length_take; lia).
    destruct (IH (JS.take n t) m1 Hn Hb1') as (m' & Erun & Hb' & Hc').
    { rewrite Hc1, Hc. unfold JS.len in *. rewrite Hn. lia. }
    exists m'. cbn [repeat run]. now rewrite E.
Qed.

(** X6.  Typing a text without line terminator at a cursor inside the
    buffer and then pressing "backspace" once per character of the text
    gives back the buffer and the cursor as they were. *)
Theorem typing_then_backspace_restores (m : Machine X) (s s' : string)
    (key bs : Key) :
  isExit key = false -> isInterrupt key = false -> isEditKey key = false ->
  JS.truthy s = true -> JS.splitLines s = [s] -> erases bs ->
  0 <= cursor m <= JS.len (buffer m) ->
  exists m',
    run onLine ((s, key) :: repeat (s', bs) (String.length s)) m
    = Some (m', false)
    /\ buffer m' = buffer m /\ cursor m' = cursor m.
Proof.
  intros Hx Hi He Hs Hsplit Hk Hc. cbn [run].
  rewrite text_step by assumption.
  set (m0 := set_history_index (-1) (set_closeOnThisOne false m)).
  destruct (appendToBuffer_line s m0) as (Hb & Hc' & _).
  simpl in Hb, Hc'. rewrite insertAt_inside in Hb by assumption.
  set (p := JS.take (Z.to_nat (cursor m)) (buffer m)) in *.
  set (r := JS.drop (Z.to_nat (cursor m)) (buffer m)) in *.
  assert (Hp : JS.len p = cursor m).
  { unfold p, JS.len in *. rewrite JSFacts.length_take. lia. }
  destruct (erase_run s' bs p r Hk (String.length s) s
              (appendToBuffer s m0) eq_refl Hb) as (m' & Erun & Hb' & Hc'').
  { rewrite Hc', Hp. reflexivity. }
  exists m'. split; [exact Erun|]. split.
  - rewrite Hb'. apply JSMore.take_drop.
  - now rewrite Hc''.
Qed.

End Editing.

(** ** Submitting lines *)

Section Submitting.

Context {X : Type} (onLine : Callback X string).

(** Segments after the first: what the history and the buffer hold at the
    end. *)
Lemma insertLines_history (lines : list string) :
  forall (i : nat) (m : Machine X),
    lines <> [] ->
    history (insertLines onLine (S i) lines m)
    = (rev (filter JS.truthy (buffer m :: removelast lines))
       ++ history m)%list
    /\ buffer (insertLines onLine (S i) lines m) = last lines ""
    /\ history_index (insertLines onLine (S i) lines m) = history_index m.
Proof.
  induction lines as [|line rest IH]; intros i m Hne; [congruence|].
  cbn [insertLines Nat.ltb Nat.leb].
  set (m' := appendToBuffer line (endLine onLine m)).
  destruct (appendToBuffer_line line (endLine onLine m))
    as (Hb & _ & Hh & Hi).
  destruct (endLine_line onLine m) as (Eb & _ & _ & Eh & Ei).
  rewrite Eb, insertAt_empty in Hb. rewrite Eh in Hh. rewrite Ei in Hi.
  fold m' in Hb, Hh, Hi.
  destruct rest as [|line' rest'].
  - cbn [insertLines removelast last filter].
    rewrite Hb, Hh, Hi. repeat split.
    now destruct (JS.truthy (buffer m)).
  - destruct (IH (S i) m') as (IHh & IHb & IHi); [discriminate|].
    rewrite IHh, IHb, IHi, Hb, Hh, Hi.
    rewrite (removelast_cons line) by discriminate.
    repeat split.
    cbn [filter]. destruct (JS.truthy (buffer m)); [|reflexivity].
    cbn [rev]. now rewrite <- app_assoc.
Qed.

Lemma insertLines_cursor (lines : list string) :
  forall (i : nat) (m : Machine X),
    lines <> [] -> Inv m ->
    cursor (insertLines onLine (S i) lines m)
    = JS.len (buffer (insertLines onLine (S i) lines m)).
Proof.
  induction lines as [|line rest IH]; intros i m Hne HI; [congruence|].
  cbn [insertLines Nat.ltb Nat.leb].
  set (m' := appendToBuffer line (endLine onLine m)).
  pose proof (Inv_endLine onLine m HI) as HI1.
  destruct (appendToBuffer_line line (endLine onLine m))
    as (Hb & Hc & _).
  destruct (endLine_line onLine m) as (Eb & _).
  destruct HI1 as [Hc1 Hh1]. rewrite Eb in Hc1, Hb.
  rewrite insertAt_empty in Hb. fold m' in Hb, Hc.
  assert (Hc0 : cursor (endLine onLine m) = 0)
    by (unfold JS.len in Hc1; simpl in Hc1; lia).
  destruct rest as [|line' rest'].
  - cbn [insertLines]. rewrite Hc, Hc0, Hb. lia.
  - apply IH; [discriminate|].
    apply Inv_appendToBuffer, Inv_endLine, HI.
Qed.

Lemma onKey_text (m : Machine X) (s : string) (key : Key) :
  isExit key = false -> isInterrupt key = false -> isEditKey key = false ->
  JS.truthy s = true ->
  onKey onLine s key m
  = Undefined
      (insertLines onLine 0 (JS.splitLines s)
         (set_history_index (-1) (set_closeOnThisOne false m))).
Proof.
  intros Hx Hi He Hs. unfold onKey. rewrite Hx, Hi. unfold dispatch.
  unfold isEditKey in He.
  repeat (apply orb_false_elim in He as [He ?]).
  repeat match goal with H : nameIs key _ = false |- _ =>
           rewrite H; clear H end.
  simpl. now rewrite Hs.
Qed.


(** X8.  A payload that reaches the default case leaves the history
    browsing at [-1] and extends the history by exactly the lines it
    submitted, the last submitted first; none of them is empty. *)
Theorem paste_extends_history (m : Machine X) (s : string) (key : Key) :
  isExit key = false -> isInterrupt key = false -> isEditKey key = false ->
  JS.truthy s = true ->
  exists m' submitted,
    onKey onLine s key m = Undefined m'
    /\ submissions (log m') = (submissions (log m) ++ submitted)%list
    /\ history m' = (rev submitted ++ history m)%list
    /\ Forall (fun line => JS.truthy line = true) submitted
    /\ history_index m' = -1.
Proof.
  intros Hx Hi He Hs. rewrite onKey_text by assumption.
  destruct (JS.splitLines s) as [|s0 rest] eqn:Hsplit;
    [now apply JSFacts.splitLines_nonempty in Hsplit|].
  set (m0 := set_history_index (-1) (set_closeOnThisOne false m)).
  cbn [insertLines Nat.ltb Nat.leb].
  destruct (appendToBuffer_line s0 m0) as (Hb & _ & Hh & Hi').
  eexists. exists (filter JS.truthy
                     (removelast (buffer (appendToBuffer s0 m0) :: rest))).
  split; [reflexivity|].
  assert (Hall : forall l, Forall (fun line => JS.truthy line = true)
                             (filter JS.truthy l)).
  { intros l. apply Forall_forall. intros x Hin.
    now apply filter_In in Hin. }
  destruct rest as [|s1 rest'].
  - cbn [insertLines removelast filter rev app].
    rewrite Quiet_appendToBuffer, Hh, Hi'. simpl.
    rewrite app_nil_r. auto.
  - destruct (insertLines_history (s1 :: rest') 0
                (appendToBuffer s0 m0)) as (IHh & _ & IHi); [discriminate|].
    rewrite (removelast_cons (buffer (appendToBuffer s0 m0)))
      by discriminate.
    split; [|split; [|split; [apply Hall|]]].
    + rewrite insertLines_submissions by discriminate.
      now rewrite Quiet_appendToBuffer.
    + now rewrite IHh, Hh.
    + now rewrite IHi, Hi'.
Qed.

(** X9.  A payload with at least one line terminator, reaching the default
    case in a state whose cursor is inside the buffer, leaves in the buffer
    exactly the text after its last terminator, with the cursor at the
    end of it. *)
Theorem paste_leaves_last_segment (m : Machine X) (s : string) (key : Key)
    (s0 : string) (rest : list string) :
  isExit key = false -> isInterrupt key = false -> isEditKey key = false ->
  JS.truthy s = true -> JS.splitLines s = s0 :: rest -> rest <> [] ->
  0 <= cursor m <= JS.len (buffer m) ->
  exists m',
    onKey onLine s key m = Undefined m'
    /\ buffer m' = last rest "" /\ cursor m' = JS.len (last rest "").
Proof.
  intros Hx Hi He Hs Hsplit Hne Hc. rewrite onKey_text by assumption.
  rewrite Hsplit. cbn [insertLines Nat.ltb Nat.leb].
  set (m0 := set_history_index (-1) (set_closeOnThisOne false m)).
  assert (HI : Inv (appendToBuffer s0 m0)).
  { apply Inv_appendToBuffer. split; simpl; lia. }
  destruct (insertLines_history rest 0 (appendToBuffer s0 m0) Hne)
    as (_ & Hb & _).
  pose proof (insertLines_cursor rest 0 (appendToBuffer s0 m0) Hne HI) as Hcur.
  eexists. split; [reflexivity|]. split; [exact Hb|].
  now rewrite Hcur, Hb.
Qed.

End Submitting.

(** ** What holds between two key events *)

Section Settled.

Context {X : Type} (onLine : Callback X string).

(** A suggestion is shown only with the cursor at the end of the buffer. *)
Definition suggestionAtEnd (m : Machine X) : Prop :=
  JS.truthy (suffix m) = true -> cursor m = JS.len (buffer m).

(** A completion list is stored only in an editor that has a lookup. *)
Definition listHasLookup (m : Machine X) : Prop :=
  completionList m <> None -> onAutocomplete m <> None.

(** No entry of the history is the empty line. *)
Definition historyFilled (m : Machine X) : Prop :=
  Forall (fun line => JS.truthy line = true) (history m).

Definition Settled (m : Machine X) : Prop :=
  paused m = false /\ suggestionAtEnd m /\ listHasLookup m
  /\ historyFilled m.

(** [refresh] when not paused: the line is redrawn bare, and [autocomplete]
    runs on that if asked for and the buffer is not empty. *)
Lemma refresh_unpaused (complete : bool) (m : Machine X) :
  paused m = false ->
  exists m0,
    Display m m0 /\ suffix m0 = "" /\ completionList m0 = None
    /\ refresh complete m
       = if complete && JS.truthy (buffer m) then autocomplete m0 else m0.
Proof.
  intros Hp. unfold refresh, refresh_. rewrite Hp.
  set (m1 := clear (set_suffix "" (set_completionList None m))).
  assert (D1 : Display m m1).
  { unfold m1. eapply Display_trans; [|apply Display_clear].
    eapply Display_trans;
      [apply Display_set_completionList | apply Display_set_suffix]. }
  destruct (transformBuffer m1) as [f|].
  - unfold call. destruct (f (buffer m1) (store m1)) as [b st].
    eexists. split; [|split; [|split; [|reflexivity]]]; [|reflexivity..].
    eapply Display_trans; [exact D1|].
    eapply Display_trans; [|apply Display_emit].
    eapply Display_trans; [|apply Display_emit].
    eapply Display_trans; [apply Display_emit | apply Display_set_store].
  - eexists. split; [|split; [|split; [|reflexivity]]]; [|reflexivity..].
    eapply Display_trans; [exact D1|].
    eapply Display_trans; [|apply Display_emit]. apply Display_emit.
Qed.

Lemma suggestionAtEnd_addSuffix (s : string) (m : Machine X) :
  suggestionAtEnd m -> suggestionAtEnd (addSuffix s m).
Proof.
  intros H. unfold addSuffix. destruct (paused m); [exact H|]. simpl.
  destruct (Z.eqb_spec (cursor m) (JS.len (buffer m))) as [E|E];
    [|exact H].
  intros _. exact E.
Qed.

Lemma suggestionAtEnd_refresh_false (m : Machine X) :
  suggestionAtEnd m -> suggestionAtEnd (refresh false m).
Proof.
  intros H. destruct (paused m) eqn:Hp.
  - unfold refresh, refresh_. now rewrite Hp.
  - destruct (refresh_unpaused false m Hp) as (m0 & _ & Hs & _ & E).
    rewrite E. simpl. unfold suggestionAtEnd. rewrite Hs. discriminate.
Qed.

Lemma suggestionAtEnd_stored (m : Machine X) (f : Callback X (option Loc))
    (l : Loc) :
  onAutocomplete m = Some f -> completionList m = Some l ->
  suggestionAtEnd m -> suggestionAtEnd (autocomplete m).
Proof.
  intros Hf Hl H. destruct (arrays (store m) l) as [|next rest] eqn:Ha.
  - rewrite (autocomplete_exhausted m f l Hf Hl Ha).
    now apply suggestionAtEnd_refresh_false.
  - rewrite (autocomplete_shift m f l next rest Hf Hl Ha).
    now apply suggestionAtEnd_addSuffix.
Qed.

Lemma suggestionAtEnd_autocomplete (m : Machine X) :
  suggestionAtEnd m -> suggestionAtEnd (autocomplete m).
Proof.
  intros H. destruct (onAutocomplete m) as [f|] eqn:Hf;
    [|now rewrite autocomplete_without_lookup].
  destruct (completionList m) as [l|] eqn:Hl;
    [now apply (suggestionAtEnd_stored m f l)|].
  destruct (f (buffer m) (store m)) as [c st] eqn:Hq.
  rewrite (autocomplete_query m f c st Hf Hl Hq). cbv zeta.
  destruct c as [l|]; [|exact H].
  now apply (suggestionAtEnd_stored _ f l).
Qed.

Lemma listHasLookup_autocomplete (m : Machine X) :
  listHasLookup m -> listHasLookup (autocomplete m).
Proof.
  intros H. destruct (onAutocomplete m) as [f|] eqn:Hf;
    [|now rewrite autocomplete_without_lookup].
  intros _. destruct (Display_autocomplete m) as [_ _ _ _ _ Ho _ _ _ _].
  rewrite Ho, Hf. discriminate.
Qed.

Lemma Settled_refresh (complete : bool) (m : Machine X) :
  paused m = false -> historyFilled m -> Settled (refresh complete m).
Proof.
  intros Hp Hh.
  destruct (Display_refresh complete m) as [_ _ _ Dp _ _ Dh _ _ _].
  destruct (refresh_unpaused complete m Hp) as (m0 & _ & Hs & Hl & E).
  assert (H2 : suggestionAtEnd m0)
    by (unfold suggestionAtEnd; rewrite Hs; discriminate).
  assert (H3 : listHasLookup m0)
    by (unfold listHasLookup; rewrite Hl; congruence).
  split; [congruence|]. split; [|split].
  - rewrite E. destruct (complete && _);
      [now apply suggestionAtEnd_autocomplete | exact H2].
  - rewrite E. destruct (complete && _);
      [now apply listHasLookup_autocomplete | exact H3].
  - unfold historyFilled. now rewrite Dh.
Qed.

Lemma Settled_autocomplete (m : Machine X) :
  Settled m -> Settled (autocomplete m).
Proof.
  intros (Hp & Hs & Hl & Hh).
  destruct (Display_autocomplete m) as [_ _ _ Dp _ _ Dh _ _ _].
  split; [congruence|]. split; [|split].
  - now apply suggestionAtEnd_autocomplete.
  - now apply listHasLookup_autocomplete.
  - unfold historyFilled. now rewrite Dh.
Qed.

Lemma Settled_appendToBuffer (s : string) (m : Machine X) :
  paused m = false -> historyFilled m -> Settled (appendToBuffer s m).
Proof.
  intros Hp Hh. unfold appendToBuffer. apply Settled_refresh.
  - now destruct (cursor m <? JS.len (buffer m)).
  - now destruct (cursor m <? JS.len (buffer m)).
Qed.

Lemma Settled_endLine (m : Machine X) :
  paused m = false -> historyFilled m -> Settled (endLine onLine m).
Proof.
  intros Hp Hh. unfold endLine. destruct (JS.truthy (buffer m)) eqn:Ht.
  - destruct (Display_refresh false m) as [Db _ _ _ _ _ Dh _ _ _].
    match goal with |- context [call ?e ?f ?a ?m0] =>
      pose proof (Display_call e f a m0) as Hcall;
      destruct (call e f a m0) as [r m1] end.
    destruct Hcall as [_ _ _ _ _ _ Hh1 _ _ _]. cbn [snd] in Hh1.
    apply Settled_refresh; [reflexivity|].
    unfold historyFilled.
    change (history (unpause (emit (Write (r ++ newline)) m1)))
      with (history m1).
    rewrite Hh1. unfold pause.
    cbn [history buffer set_history set_cursor set_buffer emit set_paused].
    rewrite Db, Dh. now constructor.
  - apply Settled_refresh; assumption.
Qed.

Lemma Settled_insertLines (lines : list string) :
  forall (i : nat) (m : Machine X),
    Settled m -> Settled (insertLines onLine i lines m).
Proof.
  induction lines as [|line rest IH]; intros i m H; simpl; [exact H|].
  apply IH. destruct (0 <? i)%nat.
  - destruct (Settled_endLine m) as (Hp & _ & _ & Hh);
      [apply H | apply H |].
    now apply Settled_appendToBuffer.
  - apply Settled_appendToBuffer; apply H.
Qed.

Lemma Settled_dispatch (s : string) (key : Key) (m m' : Machine X) :
  Inv m -> Settled m -> dispatch onLine s key m = Undefined m' ->
  Settled m'.
Proof.
  intros [Hc Hi] HS E. pose proof HS as (Hp & Hs & Hl & Hh).
  unfold dispatch in E.
  assert (Hmove : forall n, Settled (moveCursor n m)).
  { intros n. unfold moveCursor.
    destruct ((cursor m + n <? 0) || (cursor m + n >? JS.len (buffer m)));
      [exact HS|].
    now apply Settled_refresh. }
  destruct (nameIs key "up").
  { destruct (history_index m >=? _); [now injection E as <-|].
    simpl in E. destruct (JS.index _ _); [|discriminate].
    injection E as <-. now apply Settled_refresh. }
  destruct (nameIs key "down").
  { destruct (history_index m <=? 0).
    - injection E as <-. now apply Settled_refresh.
    - simpl in E. destruct (JS.index _ _); [|discriminate].
      injection E as <-. now apply Settled_refresh. }
  destruct (nameIs key "left"); [injection E as <-; apply Hmove|].
  destruct (nameIs key "right").
  { destruct (cursor m =? JS.len (buffer m)).
    - destruct (JS.truthy (suffix m)); injection E as <-;
        [now apply Settled_refresh | exact HS].
    - injection E as <-. apply Hmove. }
  destruct (nameIs key "delete" || nameIs key "backspace").
  { destruct (Z.eqb_spec (cursor m) 0); [now injection E as <-|].
    injection E as <-.
    pose proof (len_backspace (buffer m) (cursor m)) as Hlen.
    rewrite moveCursor_inside by (simpl; lia).
    now apply Settled_refresh. }
  destruct (nameIs key "tab");
    [injection E as <-; now apply Settled_autocomplete|].
  destruct (JS.truthy s); injection E as <-; [|exact HS].
  now apply Settled_insertLines.
Qed.

Lemma Settled_onKey (s : string) (key : Key) (m m' : Machine X) :
  Inv m -> Settled m -> onKey onLine s key m = Undefined m' -> Settled m'.
Proof.
  intros HI HS E. unfold onKey in E.
  destruct (isExit key); [discriminate|].
  destruct (isInterrupt key).
  - destruct (closeOnThisOne m); [discriminate|]. injection E as <-.
    destruct HS as (Hp & Hs & Hl & Hh).
    repeat split; auto.
  - now apply (Settled_dispatch s key (set_closeOnThisOne false m)).
Qed.

Lemma reachable_Settled (m : Machine X) : reachable onLine m -> Settled m.
Proof.
  induction 1 as [oa tb st | m s key m' Hr IH E | m p _ IH].
  - split; [reflexivity|]. split; [discriminate|].
    split; [intros H; now contradiction H | constructor].
  - apply (Settled_onKey s key m m'); auto. now apply (reachable_Inv onLine).
  - unfold setPrefix. apply Settled_refresh.
    + destruct (JS.truthy p); apply IH.
    + destruct (JS.truthy p); apply IH.
Qed.

(** A run that does not end the process leads from reachable states to
    reachable states. *)
Lemma reachable_run (events : list (string * Key)) :
  forall (m m' : Machine X),
    reachable onLine m -> run onLine events m = Some (m', false) ->
    reachable onLine m'.
Proof.
  induction events as [|[s key] rest IH]; intros m m' Hr E; simpl in E.
  - now injection E as <-.
  - destruct (onKey onLine s key m) as [m1|m1|] eqn:E1;
      [|discriminate..].
    apply (IH m1); [|exact E]. now apply (reach_onKey onLine m s key).
Qed.

(** X10.  In every state the editor can reach, the history index is [-1]
    or the index of an entry of the history. *)
Theorem history_index_in_range (m : Machine X) :
  reachable onLine m ->
  -1 <= history_index m < Z.of_nat (List.length (history m)).
Proof. intros Hr. now apply (reachable_Inv onLine) in Hr as [_ Hh]. Qed.

(** X11.  Between two key events the editor is never paused: every
    [pause()] of a submission has been undone by its [unpause()]. *)
Theorem unpaused_between_keys (m : Machine X) :
  reachable onLine m -> paused m = false.
Proof. intros Hr. now apply reachable_Settled in Hr as (Hp & _). Qed.

(** X12.  In every state the editor can reach, a suggestion is present
    only while the cursor is at the end of the buffer. *)
Theorem suggestion_only_at_end (m : Machine X) :
  reachable onLine m -> JS.truthy (suffix m) = true ->
  cursor m = JS.len (buffer m).
Proof. intros Hr. now apply reachable_Settled in Hr as (_ & Hs & _). Qed.

(** X13.  In every state the editor can reach, a completion list is stored
    only if a lookup was supplied at construction. *)
Theorem stored_list_has_lookup (m : Machine X) (l : Loc) :
  reachable onLine m -> completionList m = Some l ->
  exists f, onAutocomplete m = Some f.
Proof.
  intros Hr Hl. apply reachable_Settled in Hr as (_ & _ & H & _).
  destruct (onAutocomplete m) as [f|] eqn:Hf; [now exists f|].
  exfalso. apply H; [congruence | exact Hf].
Qed.

(** X14.  In every state the editor can reach, no entry of the history is
    the empty line: only non-empty buffers are submitted. *)
Theorem history_has_no_empty_line (m : Machine X) (line : string) :
  reachable onLine m -> In line (history m) -> line <> "".
Proof.
  intros Hr Hin. apply reachable_Settled in Hr as (_ & _ & _ & Hh).
  unfold historyFilled in Hh. rewrite Forall_forall in Hh.
  apply Hh in Hin. intros ->. discriminate.
Qed.

End Settled.

(** ** Edge cases of lookup, exit and interrupt *)

Section Edges.

Context {X : Type} (onLine : Callback X string).

(** X15.  [autocomplete] with no list stored asks the lookup.  When the
    lookup yields nothing, only the call shows: no field of the editor
    changes and nothing is rendered.  When it yields an empty list, the
    list is stored and dropped at once and the line is redrawn bare: the
    editor is left with no suggestion and no list, buffer and cursor as
    they were, and the lookup has been asked once. *)
Theorem lookup_without_candidates (m : Machine X)
    (f : Callback X (option Loc)) :
  onAutocomplete m = Some f -> completionList m = None ->
  (forall st,
      f (buffer m) (store m) = (None, st) ->
      autocomplete m = set_store st (emit (CallOnAutocomplete (buffer m)) m))
  /\ (forall l st,
        f (buffer m) (store m) = (Some l, st) -> arrays st l = [] ->
        paused m = false ->
        suffix (autocomplete m) = ""
        /\ completionList (autocomplete m) = None
        /\ buffer (autocomplete m) = buffer m
        /\ cursor (autocomplete m) = cursor m
        /\ lookups (log (autocomplete m))
           = (lookups (log m) ++ [buffer m])%list).
Proof.
  intros Hf Hl. split.
  - intros st Hq. now rewrite (autocomplete_query m f None st Hf Hl Hq).
  - intros l st Hq Ha Hp.
    destruct (Display_autocomplete m) as [Db Dc _ _ _ _ _ _ _ _].
    rewrite (autocomplete_query m f (Some l) st Hf Hl Hq) in *. cbv zeta in *.
    match goal with |- context [autocomplete ?m0] =>
      destruct (cycle_exhausted m0 f l) as (H1 & H2 & H3); auto end.
    repeat split; auto. rewrite H3. simpl. now rewrite lookups_app.
Qed.

(** X16.  ctrl/meta-"d" and ctrl/meta-"z" return [-1] in every state,
    whatever the guard, without touching the state; a run ends at the
    first of them, and nothing that follows it is handled. *)
Theorem exit_key_ends_run (m m0 : Machine X) (s : string) (key : Key)
    (before later : list (string * Key)) :
  isExit key = true ->
  onKey onLine s key m = MinusOne m
  /\ (run onLine before m0 = Some (m, false) ->
      run onLine (before ++ (s, key) :: later) m0 = Some (m, true)).
Proof.
  intros Hx.
  assert (E : onKey onLine s key m = MinusOne m)
    by (unfold onKey; now rewrite Hx).
  split; [exact E|]. intros Hrun.
  rewrite run_app, Hrun. cbn [run]. now rewrite E.
Qed.

(** X17.  A first ctrl/meta-"c" clears buffer and cursor without rendering,
    so the suggestion and the completion list stay as they were.  A
    "right" key pressed next finds the cursor at the end of the empty
    buffer and accepts that suggestion: the buffer is then the suggestion,
    with the cursor at its end. *)
Theorem interrupt_keeps_suggestion (m : Machine X) (s s' : string)
    (c key : Key) :
  closeOnThisOne m = false -> isInterrupt c = true ->
  name key = Some "right" -> JS.truthy (suffix m) = true ->
  suffix (interrupted m) = suffix m
  /\ completionList (interrupted m) = completionList m
  /\ exists m',
      run onLine [(s, c); (s', key)] m = Some (m', false)
      /\ buffer m' = suffix m /\ cursor m' = JS.len (suffix m).
Proof.
  intros Hg Hc Hk Hs. split; [reflexivity|]. split; [reflexivity|].
  assert (E1 : onKey onLine s c m = Undefined (interrupted m)).
  { unfold onKey. now rewrite (interrupt_is_no_exit c Hc), Hc, Hg. }
  cbn [run]. rewrite E1.
  unfold onKey, isExit, isInterrupt, dispatch, nameIs. rewrite Hk. simpl.
  rewrite !andb_false_r. simpl. rewrite Hs.
  eexists. split; [reflexivity|].
  match goal with |- context [refresh true ?m0] =>
    destruct (Display_refresh true m0) as [Db Dc _ _ _ _ _ _ _ _] end.
  simpl in *. auto.
Qed.

(** What [refresh] writes for the buffer: the buffer itself, or what
    [transformBuffer] makes of it. *)
Definition shown (m : Machine X) : string :=
  match transformBuffer m with
  | Some f => fst (f (buffer m) (store m))
  | None => buffer m
  end.

(** X18.  [refresh] does nothing at all while the editor is paused.
    Otherwise it clears suggestion and completion list and writes one
    frame: cursor to column 0, clear to the end of the screen, the prefix
    followed by the buffer as [transformBuffer] shows it (the buffer itself
    without one), cursor to column [cursor + length(prefix)].  With
    [complete] false nothing follows the frame; buffer and cursor are never
    changed. *)
Theorem refresh_writes_one_frame (complete : bool) (m : Machine X) :
  (paused m = true -> refresh complete m = m)
  /\ (paused m = false ->
      exists calls l,
        log (refresh complete m)
        = (log m ++ [CursorTo 0; ClearScreenDown] ++ calls
           ++ [Write (prefix m ++ shown m);
               CursorTo (cursor m + JS.len (prefix m))] ++ l)%list
        /\ calls
           = match transformBuffer m with
             | Some _ => [CallTransformBuffer (buffer m)]
             | None => []
             end
        /\ (complete = false ->
            l = [] /\ suffix (refresh complete m) = ""
            /\ completionList (refresh complete m) = None)
        /\ buffer (refresh complete m) = buffer m
        /\ cursor (refresh complete m) = cursor m).
Proof.
  split; intros Hp.
  - unfold refresh, refresh_. now rewrite Hp.
  - destruct (Display_refresh complete m) as [Db Dc _ _ _ _ _ _ _ _].
    unfold refresh, refresh_ in *. rewrite Hp in *.
    unfold shown, call, clear in *.
    cbn [transformBuffer buffer store emit set_suffix set_completionList
         set_store prefix cursor] in *.
    destruct (transformBuffer m) as [f|];
      [destruct (f (buffer m) (store m)) as [b st]|];
      cbn [fst transformBuffer buffer store emit set_suffix
           set_completionList set_store prefix cursor] in *;
      match goal with |- context [autocomplete ?m3] =>
        destruct (Display_autocomplete m3) as [_ _ _ _ _ _ _ _ _ [l Hl]]
      end;
      eexists;
      (destruct (complete && JS.truthy (buffer m)) eqn:Hca;
       [exists l | exists []]);
      (split; [|split; [reflexivity|split; [|auto]]]);
      try (rewrite Hl; simpl; now rewrite <- !app_assoc);
      try (simpl; now rewrite <- !app_assoc);
      try (intros ->; discriminate);
      intros _; repeat split.
Qed.

End Edges.

(** ** The further properties at concrete inputs *)

(** X1 with the newest entry in the buffer, and at the oldest entry. *)
Lemma up_moves_back_in_history_witness :
  (exists m' b,
      onKey echo "" (snd (named "up")) browsingNewest = Undefined m'
      /\ JS.index (history browsingNewest) (history_index browsingNewest + 1)
         = Some b
      /\ history_index m' = history_index browsingNewest + 1
      /\ buffer m' = b)
  /\ onKey echo "" (snd (named "up")) browsingOldest
     = Undefined (set_closeOnThisOne false browsingOldest).
Proof.
  split.
  - destruct (up_moves_back_in_history echo browsingNewest ""
                (snd (named "up")) eq_refl) as [Hmove _].
    destruct Hmove as (m' & b & E & Hb & Hi & Hbuf & _);
      [now vm_compute | now vm_compute |].
    exists m', b. exact (conj E (conj Hb (conj Hi Hbuf))).
  - destruct (up_moves_back_in_history echo browsingOldest ""
                (snd (named "up")) eq_refl) as [_ Hstay].
    apply Hstay. now vm_compute.
Defined.

(** X2 at the oldest of two entries. *)
Lemma down_in_history_witness :
  exists m' b,
    onKey echo "" (snd (named "down")) browsingOldest = Undefined m'
    /\ JS.index (history browsingOldest) (history_index browsingOldest - 1)
       = Some b
    /\ history_index m' = history_index browsingOldest - 1
    /\ buffer m' = b.
Proof.
  destruct (down_in_history echo browsingOldest "" (snd (named "down"))
              eq_refl) as (m' & b & E & Hb & Hi & Hbuf & _);
    [now vm_compute | now vm_compute |].
  exists m', b. exact (conj E (conj Hb (conj Hi Hbuf))).
Defined.

(** X3 with the newest of two entries in the buffer. *)
Lemma up_then_down_returns_witness :
  exists m' b,
    run echo [named "up"; named "down"] browsingNewest = Some (m', false)
    /\ JS.index (history browsingNewest) (history_index browsingNewest)
       = Some b
    /\ history_index m' = history_index browsingNewest
    /\ buffer m' = b.
Proof.
  destruct (up_then_down_returns echo browsingNewest "" ""
              (snd (named "up")) (snd (named "down")) eq_refl eq_refl)
    as (m' & b & E & Hb & Hi & Hbuf & _);
    [now vm_compute | now vm_compute |].
  exists m', b. exact (conj E (conj Hb (conj Hi Hbuf))).
Defined.

(** X4 on "held" with the cursor after "he". *)
Lemma arrows_move_cursor_by_one_witness :
  (exists m',
      onKey echo "" (snd (named "left")) editing = Undefined m'
      /\ cursor m' = cursor editing - 1)
  /\ (exists m',
         onKey echo "" (snd (named "right")) editing = Undefined m'
         /\ cursor m' = cursor editing + 1).
Proof.
  split.
  - destruct (arrows_move_cursor_by_one echo editing ""
                (snd (named "left"))) as [Hleft _].
    destruct (Hleft eq_refl) as (m' & E & Hc & _); [now vm_compute|].
    exists m'. exact (conj E Hc).
  - destruct (arrows_move_cursor_by_one echo editing ""
                (snd (named "right"))) as [_ Hright].
    destruct (Hright eq_refl) as (m' & E & Hc & _); [now vm_compute|].
    exists m'. exact (conj E Hc).
Defined.

(** X5 on "held" with the cursor after "he", and on a fresh editor. *)
Lemma backspace_removes_char_before_cursor_witness :
  (exists m',
      onKey echo "" (snd (named "backspace")) editing = Undefined m'
      /\ JS.len (buffer m') = JS.len (buffer editing) - 1
      /\ cursor m' = cursor editing - 1)
  /\ onKey echo "" (snd (named "delete")) plainEditor
     = Undefined (set_closeOnThisOne false plainEditor).
Proof.
  split.
  - destruct (backspace_removes_char_before_cursor echo editing ""
                (snd (named "backspace")) (or_introl eq_refl)) as [Hdel _].
    destruct Hdel as (m' & E & _ & Hl & Hc & _); [now vm_compute|].
    exists m'. exact (conj E (conj Hl Hc)).
  - destruct (backspace_removes_char_before_cursor echo plainEditor ""
                (snd (named "delete")) (or_intror eq_refl)) as [_ Hstay].
    apply Hstay. now vm_compute.
Defined.

(** X6: "XY" typed into "held" after "he", then one backspace for each
    of its characters. *)
Lemma typing_then_backspace_restores_witness :
  exists m',
    run echo
      (("XY", pasteKey)
       :: repeat ("", snd (named "backspace")) (String.length "XY")) editing
    = Some (m', false)
    /\ buffer m' = buffer editing /\ cursor m' = cursor editing.
Proof.
  assert (Hc : 0 <= cursor editing <= JS.len (buffer editing))
    by now vm_compute.
  exact (typing_then_backspace_restores echo editing "XY" "" pasteKey
           (snd (named "backspace")) eq_refl eq_refl eq_refl eq_refl
           eq_refl (or_introl eq_refl) Hc).
Defined.


(** X8 on a paste of "x", a line feed, "y" into a fresh editor. *)
Lemma paste_extends_history_witness :
  exists m' submitted,
    onKey echo ("x" ++ newline ++ "y") pasteKey plainEditor = Undefined m'
    /\ submissions (log m')
       = (submissions (log plainEditor) ++ submitted)%list
    /\ history m' = (rev submitted ++ history plainEditor)%list.
Proof.
  destruct (paste_extends_history echo plainEditor ("x" ++ newline ++ "y")
              pasteKey eq_refl eq_refl eq_refl eq_refl)
    as (m' & submitted & E & Hs & Hh & _).
  exists m', submitted. exact (conj E (conj Hs Hh)).
Defined.

(** X9 on the same paste. *)
Lemma paste_leaves_last_segment_witness :
  exists m',
    onKey echo ("x" ++ newline ++ "y") pasteKey plainEditor = Undefined m'
    /\ buffer m' = last ["y"] "" /\ cursor m' = JS.len (last ["y"] "").
Proof.
  assert (Hne : ["y"] <> []) by discriminate.
  assert (Hc : 0 <= cursor plainEditor <= JS.len (buffer plainEditor))
    by now vm_compute.
  exact (paste_leaves_last_segment echo plainEditor
           ("x" ++ newline ++ "y") pasteKey "x" ["y"] eq_refl eq_refl
           eq_refl eq_refl eq_refl Hne Hc).
Defined.

(** X10 while browsing a history of two entries. *)
Lemma history_index_in_range_witness :
  -1 <= history_index browsing
  < Z.of_nat (List.length (history browsing)).
Proof.
  apply (history_index_in_range echo).
  apply (reachable_run echo
           [typed "a"; enter; typed "b"; enter;
            named "up"; named "up"; named "down"] plainEditor);
    [apply reach_construct | vm_compute; reflexivity].
Defined.

(** X11 after two submissions. *)
Lemma unpaused_between_keys_witness : paused browsing = false.
Proof.
  apply (unpaused_between_keys echo).
  apply (reachable_run echo
           [typed "a"; enter; typed "b"; enter;
            named "up"; named "up"; named "down"] plainEditor);
    [apply reach_construct | vm_compute; reflexivity].
Defined.

(** X12 with the suggestion "foo" shown after "a". *)
Lemma suggestion_only_at_end_witness :
  JS.truthy (suffix suggesting) = true
  /\ cursor suggesting = JS.len (buffer suggesting).
Proof.
  assert (Ht : JS.truthy (suffix suggesting) = true)
    by (vm_compute; reflexivity).
  split; [exact Ht|].
  apply (suggestion_only_at_end echo); [|exact Ht].
  apply (reachable_run echo [typed "a"] (completingEditor ["foo"]));
    [apply reach_construct | vm_compute; reflexivity].
Defined.

(** X13 with the list of the preview for "ab" stored. *)
Lemma stored_list_has_lookup_witness :
  completionList previewing = Some 1%nat
  /\ exists f, onAutocomplete previewing = Some f.
Proof.
  assert (Hl : completionList previewing = Some 1%nat)
    by (vm_compute; reflexivity).
  split; [exact Hl|].
  apply (stored_list_has_lookup echo previewing 1%nat); [|exact Hl].
  apply (reachable_run echo [typed "a"; typed "b"]
           (completingEditor ["abc"; "abd"]));
    [apply reach_construct | vm_compute; reflexivity].
Defined.

(** X14 on the history after "a" and "b" were submitted. *)
Lemma history_has_no_empty_line_witness :
  In "b" (history browsing) /\ "b" <> "".
Proof.
  assert (Hin : In "b" (history browsing)) by (vm_compute; now left).
  split; [exact Hin|].
  apply (history_has_no_empty_line echo browsing "b"); [|exact Hin].
  apply (reachable_run echo
           [typed "a"; enter; typed "b"; enter;
            named "up"; named "up"; named "down"] plainEditor);
    [apply reach_construct | vm_compute; reflexivity].
Defined.

(** X15 with a lookup that answers with an empty list. *)
Lemma lookup_without_candidates_witness :
  suffix (autocomplete (completingEditor [])) = ""
  /\ completionList (autocomplete (completingEditor [])) = None
  /\ lookups (log (autocomplete (completingEditor [])))
     = (lookups (log (completingEditor []))
        ++ [buffer (completingEditor [])])%list.
Proof.
  destruct (lookup_without_candidates (completingEditor [])
              (lookupFresh []) eq_refl eq_refl) as [_ Hempty].
  destruct (Hempty 0%nat
              (snd (lookupFresh [] "" (store (completingEditor []))))
              eq_refl eq_refl eq_refl) as (Hs & Hl & _ & _ & Hq).
  exact (conj Hs (conj Hl Hq)).
Defined.

(** X16: "a", ctrl-d, "b": the run ends at ctrl-d. *)
Lemma exit_key_ends_run_witness :
  run echo ([typed "a"] ++ ctrlD :: [typed "b"]) plainEditor
  = Some (typedA, true).
Proof.
  assert (Hrun : run echo [typed "a"] plainEditor = Some (typedA, false))
    by (vm_compute; reflexivity).
  destruct (exit_key_ends_run echo typedA plainEditor (fst ctrlD)
              (snd ctrlD) [typed "a"] [typed "b"] eq_refl) as [_ Hend].
  exact (Hend Hrun).
Defined.

(** X17 with the suggestion "foo" shown after "a": ctrl-c, then right. *)
Lemma interrupt_keeps_suggestion_witness :
  exists m',
    run echo [ctrlC; named "right"] suggesting = Some (m', false)
    /\ buffer m' = suffix suggesting
    /\ cursor m' = JS.len (suffix suggesting).
Proof.
  assert (Hg : closeOnThisOne suggesting = false)
    by (vm_compute; reflexivity).
  assert (Ht : JS.truthy (suffix suggesting) = true)
    by (vm_compute; reflexivity).
  destruct (interrupt_keeps_suggestion echo suggesting (fst ctrlC) ""
              (snd ctrlC) (snd (named "right")) Hg eq_refl eq_refl Ht)
    as (_ & _ & Hright).
  exact Hright.
Defined.

(** X18 on an editor holding "a", without completion. *)
Lemma refresh_writes_one_frame_witness :
  paused typedA = false
  /\ exists calls l,
      log (refresh false typedA)
      = (log typedA ++ [CursorTo 0; ClearScreenDown] ++ calls
         ++ [Write (prefix typedA ++ shown typedA);
             CursorTo (cursor typedA + JS.len (prefix typedA))] ++ l)%list.
Proof.
  assert (Hp : paused typedA = false) by (vm_compute; reflexivity).
  split; [exact Hp|].
  destruct (refresh_writes_one_frame false typedA) as [_ Hframe].
  destruct (Hframe Hp) as (calls & l & Hl & _).
  exists calls, l. exact Hl.
Defined.
